(** * pyio: cursor-addressed binary readers and writers

    A shallow embedding of [pyio.py] (classes [MemoryReader], [MemoryWriter],
    [Writer] and [Reader]) together with the parts of the Python run time the
    classes call: slicing of [bytes], [struct.pack]/[struct.unpack] for the
    one-field formats the code uses, the strict UTF-8 codec and a seekable
    binary stream.

    Python integers are [Z], [bytes] objects are [list byte], a [str] is the
    list of its code points.  A method is a function from the state of the
    object to an outcome and the state the object is left in: an exception
    does not roll the object back. *)

From Stdlib Require Import ZArith List Bool Lia.
From Stdlib Require Import Strings.Byte.
Import ListNotations.

Local Open Scope Z_scope.

(* ================================================================== *)
(** ** Outcomes and the method monad *)

(** The exceptions the modelled code can raise. *)
Inductive exn : Type :=
| StructError          (* struct.error *)
| UnicodeDecodeError
| UnicodeEncodeError
| ValueError.

(** [OutOfFuel] is the outcome of a loop that was cut off by its iteration
    budget; [MemoryReader_read_strz_total] and [Reader_read_strz_total] show
    that the budgets chosen below are never exhausted. *)
Inductive result (A : Type) : Type :=
| Ok (a : A)
| Raise (e : exn)
| OutOfFuel.

Arguments Ok {A} a.
Arguments Raise {A} e.
Arguments OutOfFuel {A}.

Definition result_bind {A B} (r : result A) (f : A -> result B) : result B :=
  match r with
  | Ok a => f a
  | Raise e => Raise e
  | OutOfFuel => OutOfFuel
  end.

Definition result_map {A B} (f : A -> B) (r : result A) : result B :=
  result_bind r (fun a => Ok (f a)).

(** A method of an object whose state has type [S]. *)
Definition M (S A : Type) : Type := S -> result A * S.

Definition ret {S A} (a : A) : M S A := fun s => (Ok a, s).

Definition bind {S A B} (m : M S A) (k : A -> M S B) : M S B :=
  fun s =>
    match m s with
    | (Ok a, s') => k a s'
    | (Raise e, s') => (Raise e, s')
    | (OutOfFuel, s') => (OutOfFuel, s')
    end.

(** A pure computation that may raise, run inside a method. *)
Definition lift {S A} (r : result A) : M S A := fun s => (r, s).

Declare Scope method_scope.
Delimit Scope method_scope with method.
Notation "x <- m ;; k" := (bind m (fun x => k))
  (at level 100, m at next level, right associativity) : method_scope.
Notation "m ;; k" := (bind m (fun _ => k))
  (at level 100, right associativity) : method_scope.

(* ================================================================== *)
(** ** Bytes *)

Definition Z_of_byte (b : byte) : Z := Z.of_N (Byte.to_N b).

Definition byte_of_Z (z : Z) : byte :=
  match Byte.of_N (Z.to_N (z mod 256)) with
  | Some b => b
  | None => x00
  end.

(** Python's [b[start:stop]] on a sequence: a negative index counts from the
    end, and both indices are clamped into [0, len]. *)
Definition clamp_index (len i : Z) : Z :=
  if i <? 0 then Z.max (i + len) 0 else Z.min i len.

Definition py_slice {A} (l : list A) (start stop : Z) : list A :=
  let len := Z.of_nat (length l) in
  let lo := clamp_index len start in
  let hi := clamp_index len stop in
  firstn (Z.to_nat (hi - lo)) (skipn (Z.to_nat lo) l).

(** [bytes(list_of_ints)]: every element must be in [range(256)]. *)
Fixpoint bytes_of_ints (l : list Z) : result (list byte) :=
  match l with
  | [] => Ok []
  | x :: l' =>
      if (0 <=? x) && (x <? 256)
      then result_map (cons (byte_of_Z x)) (bytes_of_ints l')
      else Raise ValueError
  end.

(* ================================================================== *)
(** ** [struct.pack] and [struct.unpack] *)

Module Struct.

(** The byte-order prefix of a format string: ["<"] or [">"]. *)
Inductive endian : Type := Little | Big.

(** The format characters used by the code, in standard size. *)
Inductive code : Type :=
| fmt_b | fmt_h | fmt_i | fmt_q      (* signed:   "b" "h" "i" "q" *)
| fmt_B | fmt_H | fmt_I | fmt_Q.     (* unsigned: "B" "H" "I" "Q" *)

Definition size (c : code) : nat :=
  match c with
  | fmt_b | fmt_B => 1
  | fmt_h | fmt_H => 2
  | fmt_i | fmt_I => 4
  | fmt_q | fmt_Q => 8
  end%nat.

Definition signed (c : code) : bool :=
  match c with
  | fmt_b | fmt_h | fmt_i | fmt_q => true
  | fmt_B | fmt_H | fmt_I | fmt_Q => false
  end.

Definition bits (c : code) : Z := 8 * Z.of_nat (size c).

Definition min_value (c : code) : Z :=
  if signed c then - 2 ^ (bits c - 1) else 0.

Definition max_value (c : code) : Z :=
  if signed c then 2 ^ (bits c - 1) - 1 else 2 ^ bits c - 1.

Definition in_range (c : code) (v : Z) : bool :=
  (min_value c <=? v) && (v <=? max_value c).

(** The [n] low bytes of [v], least significant first; a negative [v]
    comes out in two's complement. *)
Fixpoint int_to_bytes_le (n : nat) (v : Z) : list byte :=
  match n with
  | O => []
  | S n' => byte_of_Z (v mod 256) :: int_to_bytes_le n' (v / 256)
  end.

Fixpoint int_from_bytes_le (l : list byte) : Z :=
  match l with
  | [] => 0
  | b :: l' => Z_of_byte b + 256 * int_from_bytes_le l'
  end.

Definition order (e : endian) (l : list byte) : list byte :=
  match e with
  | Little => l
  | Big => rev l
  end.

(** [pack(endian + code, v)]. *)
Definition pack (e : endian) (c : code) (v : Z) : result (list byte) :=
  if in_range c v
  then Ok (order e (int_to_bytes_le (size c) v))
  else Raise StructError.

(** [unpack(endian + code, buf)[0]]: the buffer must have exactly the size
    of the format. *)
Definition unpack (e : endian) (c : code) (buf : list byte) : result Z :=
  if Nat.eqb (length buf) (size c)
  then
    let u := int_from_bytes_le (order e buf) in
    Ok (if signed c && (2 ^ (bits c - 1) <=? u) then u - 2 ^ bits c else u)
  else Raise StructError.

End Struct.

Import Struct.

(* ================================================================== *)
(** ** The strict UTF-8 codec: [str.encode('utf-8')], [bytes.decode('utf-8')] *)

Module Utf8.

(** A [str] is the list of its code points, each in [range(0x110000)]. *)
Definition str : Type := list Z.

Definition is_surrogate (c : Z) : bool := (0xD800 <=? c) && (c <=? 0xDFFF).

(** One code point.  Surrogates cannot be encoded; an integer that is not a
    code point at all is rejected in the same way. *)
Definition encode_char (c : Z) : result (list byte) :=
  if c <? 0 then Raise UnicodeEncodeError
  else if c <? 0x80 then Ok [byte_of_Z c]
  else if c <? 0x800 then
    Ok [byte_of_Z (0xC0 + c / 64); byte_of_Z (0x80 + c mod 64)]
  else if c <? 0x10000 then
    if is_surrogate c then Raise UnicodeEncodeError
    else Ok [byte_of_Z (0xE0 + c / 4096);
             byte_of_Z (0x80 + (c / 64) mod 64);
             byte_of_Z (0x80 + c mod 64)]
  else if c <? 0x110000 then
    Ok [byte_of_Z (0xF0 + c / 262144);
        byte_of_Z (0x80 + (c / 4096) mod 64);
        byte_of_Z (0x80 + (c / 64) mod 64);
        byte_of_Z (0x80 + c mod 64)]
  else Raise UnicodeEncodeError.

Fixpoint encode (s : str) : result (list byte) :=
  match s with
  | [] => Ok []
  | c :: s' =>
      result_bind (encode_char c) (fun bs => result_map (app bs) (encode s'))
  end.

Definition between (lo hi : Z) (b : byte) : bool :=
  (lo <=? Z_of_byte b) && (Z_of_byte b <=? hi).

(** A continuation byte [10xxxxxx] and the six bits it carries. *)
Definition cont (b : byte) : bool := between 0x80 0xBF b.
Definition low6 (b : byte) : Z := Z_of_byte b - 0x80.

(** Well-formed sequences only: no overlong form, no surrogate, nothing
    above U+10FFFF, no truncated sequence. *)
Fixpoint decode (bs : list byte) : result str :=
  match bs with
  | [] => Ok []
  | b0 :: r0 =>
      let x0 := Z_of_byte b0 in
      if x0 <? 0x80 then result_map (cons x0) (decode r0)
      else if x0 <? 0xC2 then Raise UnicodeDecodeError
      else if x0 <? 0xE0 then
        match r0 with
        | b1 :: r1 =>
            if cont b1
            then result_map (cons ((x0 - 0xC0) * 64 + low6 b1)) (decode r1)
            else Raise UnicodeDecodeError
        | _ => Raise UnicodeDecodeError
        end
      else if x0 <? 0xF0 then
        match r0 with
        | b1 :: b2 :: r2 =>
            if between (if x0 =? 0xE0 then 0xA0 else 0x80)
                       (if x0 =? 0xED then 0x9F else 0xBF) b1
               && cont b2
            then result_map
                   (cons ((x0 - 0xE0) * 4096 + low6 b1 * 64 + low6 b2))
                   (decode r2)
            else Raise UnicodeDecodeError
        | _ => Raise UnicodeDecodeError
        end
      else if x0 <? 0xF5 then
        match r0 with
        | b1 :: b2 :: b3 :: r3 =>
            if between (if x0 =? 0xF0 then 0x90 else 0x80)
                       (if x0 =? 0xF4 then 0x8F else 0xBF) b1
               && cont b2 && cont b3
            then result_map
                   (cons ((x0 - 0xF0) * 262144 + low6 b1 * 4096
                          + low6 b2 * 64 + low6 b3))
                   (decode r3)
            else Raise UnicodeDecodeError
        | _ => Raise UnicodeDecodeError
        end
      else Raise UnicodeDecodeError
  end.

End Utf8.

(* ================================================================== *)
(** ** A seekable binary stream

    The external resource handed to [Writer] and [Reader]: an object with
    [read], [write], [seek] and [tell].  The model is the in-memory binary
    stream ([io.BytesIO]); a regular file opened in binary mode behaves the
    same way for these four calls. *)

Module Stream.

Record t : Type := { data : list byte; pos : nat }.

(** [read(count)]: at most [count] bytes, fewer at end of data; a negative
    [count] reads everything that is left.  The position moves by the number
    of bytes returned. *)
Definition read (count : Z) : M t (list byte) := fun s =>
  let avail := skipn (pos s) (data s) in
  let n := if count <? 0 then length avail
           else Nat.min (Z.to_nat count) (length avail) in
  (Ok (firstn n avail), {| data := data s; pos := (pos s + n)%nat |}).

(** [write(buf)]: overwrites from the position on and extends the data when
    it runs past the end; a position beyond the end is first filled with
    zero bytes.  Writing nothing changes nothing. *)
Definition write (buf : list byte) : M t Z := fun s =>
  match buf with
  | [] => (Ok 0, s)
  | _ =>
      (Ok (Z.of_nat (length buf)),
       {| data := firstn (pos s) (data s)
                  ++ repeat x00 (pos s - length (data s))
                  ++ buf
                  ++ skipn (pos s + length buf) (data s);
          pos := (pos s + length buf)%nat |})
  end.

(** [seek(offset)] from the start; a negative offset is refused. *)
Definition seek (offset : Z) : M t Z := fun s =>
  if offset <? 0 then (Raise ValueError, s)
  else (Ok offset, {| data := data s; pos := Z.to_nat offset |}).

Definition tell : M t Z := fun s => (Ok (Z.of_nat (pos s)), s).

End Stream.

Local Open Scope method_scope.

(* ================================================================== *)
(** ** class MemoryReader *)

Module MemoryReader.

Record t : Type :=
  { buffer : list byte; endian : Struct.endian; offset : Z }.

(** [__init__(buffer, endian)] *)
Definition init (buffer : list byte) (endian : Struct.endian) : t :=
  {| buffer := buffer; endian := endian; offset := 0 |}.

Definition get_endian : M t Struct.endian :=
  fun self => (Ok (endian self), self).

(** [buf = self.buffer[self.offset:self.offset + count]; self.offset += count] *)
Definition read (count : Z) : M t (list byte) := fun self =>
  (Ok (py_slice (buffer self) (offset self) (offset self + count)),
   {| buffer := buffer self; endian := endian self;
      offset := offset self + count |}).

Definition read_i8 : M t Z :=
  buf <- read 1 ;; e <- get_endian ;; lift (unpack e fmt_b buf).

Definition read_i16 : M t Z :=
  buf <- read 2 ;; e <- get_endian ;; lift (unpack e fmt_h buf).

Definition read_i32 : M t Z :=
  buf <- read 4 ;; e <- get_endian ;; lift (unpack e fmt_i buf).

Definition read_i64 : M t Z :=
  buf <- read 8 ;; e <- get_endian ;; lift (unpack e fmt_q buf).

Definition read_u8 : M t Z :=
  buf <- read 1 ;; e <- get_endian ;; lift (unpack e fmt_B buf).

Definition read_u16 : M t Z :=
  buf <- read 2 ;; e <- get_endian ;; lift (unpack e fmt_H buf).

Definition read_u32 : M t Z :=
  buf <- read 4 ;; e <- get_endian ;; lift (unpack e fmt_I buf).

Definition read_u64 : M t Z :=
  buf <- read 8 ;; e <- get_endian ;; lift (unpack e fmt_Q buf).

Definition read_str (length : Z) : M t Utf8.str :=
  buf <- read length ;; lift (Utf8.decode buf).

Definition seek (offset : Z) : M t unit := fun self =>
  (Ok tt, {| buffer := buffer self; endian := endian self; offset := offset |}).

Definition tell : M t Z := fun self => (Ok (offset self), self).

Definition skip (count : Z) : M t unit :=
  pos <- tell ;; seek (pos + count).

(** [while self.read_i8() != terminator: str_length += 1], with a budget of
    iterations. *)
Fixpoint strz_scan (fuel : nat) (terminator str_length : Z) : M t Z :=
  match fuel with
  | O => lift OutOfFuel
  | S fuel' =>
      c <- read_i8 ;;
      if c =? terminator then ret str_length
      else strz_scan fuel' terminator (str_length + 1)
  end.

Definition read_strz_fuel (fuel : nat) (terminator : Z) : M t Utf8.str :=
  pos <- tell ;;
  str_length <- strz_scan fuel terminator 0 ;;
  seek pos ;;
  line <- read_str str_length ;;
  skip 1 ;;
  ret line.

(** Every iteration of the scan but the last consumes one byte of the
    buffer, so one more than its length is budget enough. *)
Definition read_strz (terminator : Z) : M t Utf8.str := fun self =>
  read_strz_fuel (S (length (buffer self))) terminator self.

(** The fixed-width reads by format character. *)
Definition read_num (c : code) : M t Z :=
  match c with
  | fmt_b => read_i8 | fmt_h => read_i16 | fmt_i => read_i32 | fmt_q => read_i64
  | fmt_B => read_u8 | fmt_H => read_u16 | fmt_I => read_u32 | fmt_Q => read_u64
  end.

End MemoryReader.

(* ================================================================== *)
(** ** class MemoryWriter *)

Module MemoryWriter.

Record t : Type := { endian : Struct.endian; buffer : list byte }.

(** [__init__(endian)]: the buffer starts as [bytes()]. *)
Definition init (endian : Struct.endian) : t :=
  {| endian := endian; buffer := [] |}.

Definition get_endian : M t Struct.endian :=
  fun self => (Ok (endian self), self).

(** [self.buffer += data] *)
Definition write (data : list byte) : M t unit := fun self =>
  (Ok tt, {| endian := endian self; buffer := buffer self ++ data |}).

Definition write_i8 (data : Z) : M t unit :=
  e <- get_endian ;; buf <- lift (pack e fmt_b data) ;; write buf.

Definition write_i16 (data : Z) : M t unit :=
  e <- get_endian ;; buf <- lift (pack e fmt_h data) ;; write buf.

Definition write_i32 (data : Z) : M t unit :=
  e <- get_endian ;; buf <- lift (pack e fmt_i data) ;; write buf.

Definition write_i64 (data : Z) : M t unit :=
  e <- get_endian ;; buf <- lift (pack e fmt_q data) ;; write buf.

Definition write_u8 (data : Z) : M t unit :=
  e <- get_endian ;; buf <- lift (pack e fmt_B data) ;; write buf.

Definition write_u16 (data : Z) : M t unit :=
  e <- get_endian ;; buf <- lift (pack e fmt_H data) ;; write buf.

Definition write_u32 (data : Z) : M t unit :=
  e <- get_endian ;; buf <- lift (pack e fmt_I data) ;; write buf.

Definition write_u64 (data : Z) : M t unit :=
  e <- get_endian ;; buf <- lift (pack e fmt_Q data) ;; write buf.

Definition write_str (data : Utf8.str) : M t unit :=
  buf <- lift (Utf8.encode data) ;; write buf.

Definition write_strz (data : Utf8.str) : M t unit :=
  buf <- lift (Utf8.encode data) ;; write buf ;; write_i8 0.

Definition write_num (c : code) : Z -> M t unit :=
  match c with
  | fmt_b => write_i8 | fmt_h => write_i16
  | fmt_i => write_i32 | fmt_q => write_i64
  | fmt_B => write_u8 | fmt_H => write_u16
  | fmt_I => write_u32 | fmt_Q => write_u64
  end.

End MemoryWriter.

(* ================================================================== *)
(** ** class Writer *)

Module Writer.

Record t : Type := { buffer : Stream.t; endian : Struct.endian }.

Definition init (buffer : Stream.t) (endian : Struct.endian) : t :=
  {| buffer := buffer; endian := endian |}.

Definition get_endian : M t Struct.endian :=
  fun self => (Ok (endian self), self).

(** A call of a method of [self.buffer]. *)
Definition on_buffer {A} (m : M Stream.t A) : M t A := fun self =>
  let '(r, s') := m (buffer self) in
  (r, {| buffer := s'; endian := endian self |}).

Definition write (buf : list byte) : M t unit :=
  on_buffer (Stream.write buf) ;; ret tt.

Definition write_i8 (data : Z) : M t unit :=
  e <- get_endian ;; buf <- lift (pack e fmt_b data) ;; write buf.

Definition write_i16 (data : Z) : M t unit :=
  e <- get_endian ;; buf <- lift (pack e fmt_h data) ;; write buf.

Definition write_i32 (data : Z) : M t unit :=
  e <- get_endian ;; buf <- lift (pack e fmt_i data) ;; write buf.

Definition write_i64 (data : Z) : M t unit :=
  e <- get_endian ;; buf <- lift (pack e fmt_q data) ;; write buf.

Definition write_u8 (data : Z) : M t unit :=
  e <- get_endian ;; buf <- lift (pack e fmt_B data) ;; write buf.

Definition write_u16 (data : Z) : M t unit :=
  e <- get_endian ;; buf <- lift (pack e fmt_H data) ;; write buf.

Definition write_u32 (data : Z) : M t unit :=
  e <- get_endian ;; buf <- lift (pack e fmt_I data) ;; write buf.

Definition write_u64 (data : Z) : M t unit :=
  e <- get_endian ;; buf <- lift (pack e fmt_Q data) ;; write buf.

Definition write_str (data : Utf8.str) : M t unit :=
  buf <- lift (Utf8.encode data) ;; write buf.

Definition write_strz (data : Utf8.str) : M t unit :=
  buf <- lift (Utf8.encode data) ;; write buf ;; write_i8 0.

(** [for _ in range(n): body] *)
Fixpoint for_range (n : nat) (body : M t unit) : M t unit :=
  match n with
  | O => ret tt
  | S n' => body ;; for_range n' body
  end.

(** [for _ in range(count): self.write_i8(0)]; [range] of a negative count
    is empty. *)
Definition skip (count : Z) : M t unit :=
  for_range (Z.to_nat count) (write_i8 0).

Definition seek (offset : Z) : M t unit :=
  on_buffer (Stream.seek offset) ;; ret tt.

Definition tell : M t Z := on_buffer Stream.tell.

Definition write_num (c : code) : Z -> M t unit :=
  match c with
  | fmt_b => write_i8 | fmt_h => write_i16
  | fmt_i => write_i32 | fmt_q => write_i64
  | fmt_B => write_u8 | fmt_H => write_u16
  | fmt_I => write_u32 | fmt_Q => write_u64
  end.

End Writer.

(* ================================================================== *)
(** ** class Reader *)

Module Reader.

Record t : Type := { buffer : Stream.t; endian : Struct.endian }.

Definition init (buffer : Stream.t) (endian : Struct.endian) : t :=
  {| buffer := buffer; endian := endian |}.

Definition get_endian : M t Struct.endian :=
  fun self => (Ok (endian self), self).

Definition on_buffer {A} (m : M Stream.t A) : M t A := fun self =>
  let '(r, s') := m (buffer self) in
  (r, {| buffer := s'; endian := endian self |}).

Definition read (count : Z) : M t (list byte) :=
  on_buffer (Stream.read count).

Definition read_i8 : M t Z :=
  buf <- read 1 ;; e <- get_endian ;; lift (unpack e fmt_b buf).

Definition read_i16 : M t Z :=
  buf <- read 2 ;; e <- get_endian ;; lift (unpack e fmt_h buf).

Definition read_i32 : M t Z :=
  buf <- read 4 ;; e <- get_endian ;; lift (unpack e fmt_i buf).

Definition read_i64 : M t Z :=
  buf <- read 8 ;; e <- get_endian ;; lift (unpack e fmt_q buf).

Definition read_u8 : M t Z :=
  buf <- read 1 ;; e <- get_endian ;; lift (unpack e fmt_B buf).

Definition read_u16 : M t Z :=
  buf <- read 2 ;; e <- get_endian ;; lift (unpack e fmt_H buf).

Definition read_u32 : M t Z :=
  buf <- read 4 ;; e <- get_endian ;; lift (unpack e fmt_I buf).

Definition read_u64 : M t Z :=
  buf <- read 8 ;; e <- get_endian ;; lift (unpack e fmt_Q buf).

Definition read_str (size : Z) : M t Utf8.str :=
  buf <- read size ;; lift (Utf8.decode buf).

(** [bytes(list(map(lambda n: n ^ xor, list(buf))))] *)
Definition xor_bytes (xor : Z) (buf : list byte) : result (list byte) :=
  bytes_of_ints (map (fun n => Z.lxor n xor) (map Z_of_byte buf)).

Definition read_str_xor (size xor : Z) : M t Utf8.str :=
  buf <- read size ;;
  plain <- lift (xor_bytes xor buf) ;;
  lift (Utf8.decode plain).

Definition seek (offset : Z) : M t unit :=
  on_buffer (Stream.seek offset) ;; ret tt.

Definition tell : M t Z := on_buffer Stream.tell.

Definition skip (count : Z) : M t unit :=
  pos <- tell ;; seek (pos + count).

Fixpoint strz_scan (fuel : nat) (terminator str_length : Z) : M t Z :=
  match fuel with
  | O => lift OutOfFuel
  | S fuel' =>
      c <- read_i8 ;;
      if c =? terminator then ret str_length
      else strz_scan fuel' terminator (str_length + 1)
  end.

Definition read_strz_fuel (fuel : nat) (terminator : Z) : M t Utf8.str :=
  pos <- tell ;;
  str_length <- strz_scan fuel terminator 0 ;;
  seek pos ;;
  line <- read_str str_length ;;
  skip 1 ;;
  ret line.

(** The scan reads one byte per iteration and stops at end of data. *)
Definition read_strz (terminator : Z) : M t Utf8.str := fun self =>
  read_strz_fuel (S (length (Stream.data (buffer self)))) terminator self.

Definition read_num (c : code) : M t Z :=
  match c with
  | fmt_b => read_i8 | fmt_h => read_i16 | fmt_i => read_i32 | fmt_q => read_i64
  | fmt_B => read_u8 | fmt_H => read_u16 | fmt_I => read_u32 | fmt_Q => read_u64
  end.

End Reader.

(* ================================================================== *)
(** ** Vocabulary of the properties *)

(** One byte read as a signed 8-bit integer: what [unpack] gives for ["b"]. *)
Definition i8 (b : byte) : Z :=
  let u := Z_of_byte b in
  if 128 <=? u then u - 256 else u.

(** The cursor of a [MemoryReader] lies inside its buffer. *)
Definition cursor_in_bounds (r : MemoryReader.t) : Prop :=
  0 <= MemoryReader.offset r <= Z.of_nat (length (MemoryReader.buffer r)).

(** How many one-byte reads in a row can succeed from the cursor of [r]: the
    bytes up to the end of the buffer, or, for a negative cursor (which
    slicing counts from the end), the bytes up to the cursor [-1], where the
    slice is empty. *)
Definition readable (r : MemoryReader.t) : nat :=
  let len := Z.of_nat (length (MemoryReader.buffer r)) in
  let o := MemoryReader.offset r in
  Z.to_nat (if o <? 0 then (if - len <=? o then - 1 - o else 0) else len - o).

(** The operations of a [MemoryReader], for statements about all of them. *)
Inductive reader_op : Type :=
| OpRead (count : Z)
| OpReadNum (c : code)
| OpReadStr (length : Z)
| OpReadStrz (terminator : Z)
| OpSeek (offset : Z)
| OpSkip (count : Z)
| OpTell.

(** The reader after an operation, whatever the operation returned. *)
Definition after (o : reader_op) (r : MemoryReader.t) : MemoryReader.t :=
  match o with
  | OpRead count => snd (MemoryReader.read count r)
  | OpReadNum c => snd (MemoryReader.read_num c r)
  | OpReadStr n => snd (MemoryReader.read_str n r)
  | OpReadStrz t => snd (MemoryReader.read_strz t r)
  | OpSeek o => snd (MemoryReader.seek o r)
  | OpSkip count => snd (MemoryReader.skip count r)
  | OpTell => snd (MemoryReader.tell r)
  end.

(** Whether the operation returned a value rather than raising. *)
Definition returns (o : reader_op) (r : MemoryReader.t) : Prop :=
  match o with
  | OpRead count => exists v, fst (MemoryReader.read count r) = Ok v
  | OpReadNum c => exists v, fst (MemoryReader.read_num c r) = Ok v
  | OpReadStr n => exists v, fst (MemoryReader.read_str n r) = Ok v
  | OpReadStrz t => exists v, fst (MemoryReader.read_strz t r) = Ok v
  | OpSeek o => exists v, fst (MemoryReader.seek o r) = Ok v
  | OpSkip count => exists v, fst (MemoryReader.skip count r) = Ok v
  | OpTell => exists v, fst (MemoryReader.tell r) = Ok v
  end.

(** The uses of an operation that are expected to keep the cursor inside
    the buffer: a move to a position inside it, or a read that returns. *)
Definition stays_inside (o : reader_op) (r : MemoryReader.t) : Prop :=
  let len := Z.of_nat (length (MemoryReader.buffer r)) in
  match o with
  | OpRead count | OpReadStr count | OpSkip count =>
      0 <= MemoryReader.offset r + count <= len
  | OpSeek offset => 0 <= offset <= len
  | OpReadNum _ | OpReadStrz _ => returns o r
  | OpTell => True
  end.

(** The byte-wise exclusive-or of a span with a one-byte key. *)
Definition xor_span (key : Z) (b : list byte) : list byte :=
  map (fun x => byte_of_Z (Z.lxor (Z_of_byte x) key)) b.

(** The unsigned format of the same size. *)
Definition unsigned_code (c : code) : code :=
  match c with
  | fmt_b | fmt_B => fmt_B
  | fmt_h | fmt_H => fmt_H
  | fmt_i | fmt_I => fmt_I
  | fmt_q | fmt_Q => fmt_Q
  end.

(** The operations of a [MemoryWriter], for statements about all of them. *)
Inductive writer_op : Type :=
| OpWrite (data : list byte)
| OpWriteNum (c : code) (v : Z)
| OpWriteStr (data : Utf8.str)
| OpWriteStrz (data : Utf8.str).

Definition run_write (o : writer_op) : M MemoryWriter.t unit :=
  match o with
  | OpWrite data => MemoryWriter.write data
  | OpWriteNum c v => MemoryWriter.write_num c v
  | OpWriteStr data => MemoryWriter.write_str data
  | OpWriteStrz data => MemoryWriter.write_strz data
  end.

(** The operations of a [Reader], for statements about all of them. *)
Inductive stream_reader_op : Type :=
| SRead (count : Z)
| SReadNum (c : code)
| SReadStr (size : Z)
| SReadStrXor (size xor : Z)
| SReadStrz (terminator : Z)
| SSeek (offset : Z)
| SSkip (count : Z)
| STell.

(** The [Reader] after an operation, whatever the operation returned. *)
Definition stream_after (o : stream_reader_op) (r : Reader.t) : Reader.t :=
  match o with
  | SRead count => snd (Reader.read count r)
  | SReadNum c => snd (Reader.read_num c r)
  | SReadStr size => snd (Reader.read_str size r)
  | SReadStrXor size xor => snd (Reader.read_str_xor size xor r)
  | SReadStrz t => snd (Reader.read_strz t r)
  | SSeek offset => snd (Reader.seek offset r)
  | SSkip count => snd (Reader.skip count r)
  | STell => snd (Reader.tell r)
  end.

(** A method of a [Reader] that leaves the data of the stream and the byte
    order as they are, whatever it returns. *)
Definition keeps_stream_data {A} (m : M Reader.t A) : Prop :=
  forall r,
    Stream.data (Reader.buffer (snd (m r))) = Stream.data (Reader.buffer r)
    /\ Reader.endian (snd (m r)) = Reader.endian r.

(** Sample runs. *)
Example u32_written : 
  MemoryWriter.buffer (snd (MemoryWriter.write_u32 305419896 (MemoryWriter.init Little)))
  = [x78; x56; x34; x12].
Proof. reflexivity. Qed.

Example strz_read :
  MemoryReader.read_strz 0 (MemoryReader.init [x61; x62; x63; x00] Little)
  = (Ok [97; 98; 99],
     {| MemoryReader.buffer := [x61; x62; x63; x00];
        MemoryReader.endian := Little; MemoryReader.offset := 4 |}).
Proof. reflexivity. Qed.

(* ================================================================== *)
(** * Properties *)

(** ** Bytes and integers *)

Lemma Z_of_byte_range (b : byte) : 0 <= Z_of_byte b < 256.
Proof.
  unfold Z_of_byte. pose proof (Byte.to_N_bounded b). lia.
Qed.

Lemma Z_of_byte_of_Z_mod (z : Z) : Z_of_byte (byte_of_Z z) = z mod 256.
Proof.
  unfold Z_of_byte, byte_of_Z.
  pose proof (Z.mod_pos_bound z 256 ltac:(lia)) as Hz.
  destruct (Byte.of_N (Z.to_N (z mod 256))) as [b|] eqn:E.
  - apply Byte.to_of_N in E. rewrite E. lia.
  - apply Byte.of_N_None_iff in E. lia.
Qed.

Lemma Z_of_byte_of_Z (z : Z) : 0 <= z < 256 -> Z_of_byte (byte_of_Z z) = z.
Proof.
  intros Hz. rewrite Z_of_byte_of_Z_mod. apply Z.mod_small. exact Hz.
Qed.

Lemma Z_of_byte_inj (a b : byte) : Z_of_byte a = Z_of_byte b -> a = b.
Proof.
  unfold Z_of_byte. intros H. apply N2Z.inj in H.
  pose proof (Byte.of_to_N a) as Ha. rewrite H, Byte.of_to_N in Ha. congruence.
Qed.

Lemma byte_of_Z_of_byte (b : byte) : byte_of_Z (Z_of_byte b) = b.
Proof.
  apply Z_of_byte_inj. apply Z_of_byte_of_Z, Z_of_byte_range.
Qed.

Lemma length_int_to_bytes_le (n : nat) (v : Z) :
  length (int_to_bytes_le n v) = n.
Proof.
  revert v. induction n as [|n IH]; intros v; simpl; [reflexivity|].
  now rewrite IH.
Qed.

Lemma int_from_to_bytes_le (n : nat) (v : Z) :
  int_from_bytes_le (int_to_bytes_le n v) = v mod 2 ^ (8 * Z.of_nat n).
Proof.
  revert v. induction n as [|n IH]; intros v.
  - simpl. now rewrite Z.mod_1_r.
  - cbn [int_to_bytes_le int_from_bytes_le].
    rewrite IH, Z_of_byte_of_Z_mod, Z.mod_mod by lia.
    replace (8 * Z.of_nat (S n)) with (8 + 8 * Z.of_nat n) by lia.
    rewrite Z.pow_add_r by lia.
    change (2 ^ 8) with 256.
    rewrite Z.rem_mul_r by lia. reflexivity.
Qed.

Lemma order_involutive (e : endian) (l : list byte) : order e (order e l) = l.
Proof. destruct e; simpl; [reflexivity | apply rev_involutive]. Qed.

Lemma length_order (e : endian) (l : list byte) : length (order e l) = length l.
Proof. destruct e; simpl; [reflexivity | apply length_rev]. Qed.

Lemma in_range_iff (c : code) (v : Z) :
  in_range c v = true <-> min_value c <= v <= max_value c.
Proof. unfold in_range. rewrite andb_true_iff, !Z.leb_le. tauto. Qed.

(** Reading a two's complement value back out of its low bits. *)
Lemma wrap_signed (w v : Z) :
  0 < w -> - 2 ^ (w - 1) <= v <= 2 ^ (w - 1) - 1 ->
  (if 2 ^ (w - 1) <=? v mod 2 ^ w then v mod 2 ^ w - 2 ^ w else v mod 2 ^ w) = v.
Proof.
  intros Hw Hv.
  assert (Hp : 2 ^ w = 2 * 2 ^ (w - 1)).
  { replace w with (1 + (w - 1)) at 1 by lia. rewrite Z.pow_add_r by lia. reflexivity. }
  assert (0 < 2 ^ (w - 1)) by (apply Z.pow_pos_nonneg; lia).
  rewrite Hp. set (h := 2 ^ (w - 1)) in *.
  destruct (Z_lt_le_dec v 0) as [Hneg|Hpos].
  - assert (E : v mod (2 * h) = v + 2 * h).
    { rewrite <- (Z.mod_add v 1 (2 * h)) by lia.
      rewrite Z.mul_1_l. apply Z.mod_small. lia. }
    rewrite E. destruct (Z.leb_spec h (v + 2 * h)); lia.
  - rewrite Z.mod_small by lia.
    destruct (Z.leb_spec h v); lia.
Qed.

(** What [unpack] returns is what [pack] was given. *)
Lemma unpack_pack (e : endian) (c : code) (v : Z) :
  in_range c v = true ->
  result_bind (pack e c v) (unpack e c) = Ok v.
Proof.
  intros Hr. unfold pack. rewrite Hr. cbn [result_bind]. unfold unpack.
  rewrite length_order, length_int_to_bytes_le, Nat.eqb_refl.
  rewrite order_involutive, int_from_to_bytes_le. fold (bits c).
  apply in_range_iff in Hr. f_equal.
  assert (Hb : 0 < bits c) by (destruct c; reflexivity).
  unfold min_value, max_value in Hr.
  destruct (signed c); cbn [andb].
  - apply wrap_signed; assumption.
  - apply Z.mod_small. lia.
Qed.

Lemma pack_length (e : endian) (c : code) (v : Z) (bs : list byte) :
  pack e c v = Ok bs -> length bs = size c.
Proof.
  unfold pack. destruct (in_range c v); [|discriminate].
  intros [= <-]. now rewrite length_order, length_int_to_bytes_le.
Qed.

Lemma unpack_wrong_size (e : endian) (c : code) (buf : list byte) :
  length buf <> size c -> unpack e c buf = Raise StructError.
Proof.
  intros H. unfold unpack. apply Nat.eqb_neq in H. now rewrite H.
Qed.

Lemma unpack_never_out_of_fuel (e : endian) (c : code) (buf : list byte) :
  unpack e c buf <> OutOfFuel.
Proof. unfold unpack. destruct (Nat.eqb _ _); discriminate. Qed.

(** ** Slices *)

Lemma py_slice_length {A} (l : list A) (start stop : Z) :
  let len := Z.of_nat (length l) in
  Z.of_nat (length (py_slice l start stop))
  = Z.max 0 (clamp_index len stop - clamp_index len start).
Proof.
  unfold py_slice, clamp_index. cbv zeta.
  rewrite length_firstn, length_skipn.
  destruct (Z.ltb_spec start 0), (Z.ltb_spec stop 0); lia.
Qed.

(** A window that starts inside the sequence and fits in it. *)
Lemma py_slice_inside {A} (l : list A) (start count : Z) :
  0 <= start -> 0 <= count -> start + count <= Z.of_nat (length l) ->
  py_slice l start (start + count)
  = firstn (Z.to_nat count) (skipn (Z.to_nat start) l).
Proof.
  intros Hs Hc Hl. unfold py_slice, clamp_index.
  destruct (Z.ltb_spec start 0), (Z.ltb_spec (start + count) 0); try lia.
  do 2 f_equal; lia.
Qed.

(** A window that starts inside the sequence and runs past its end is cut. *)
Lemma py_slice_cut {A} (l : list A) (start count : Z) :
  0 <= start -> Z.of_nat (length l) <= start + count ->
  py_slice l start (start + count) = skipn (Z.to_nat start) l.
Proof.
  intros Hs Hl. unfold py_slice, clamp_index.
  destruct (Z.ltb_spec start 0), (Z.ltb_spec (start + count) 0); try lia.
  rewrite Z.min_r by lia.
  destruct (Z.le_ge_cases start (Z.of_nat (length l))).
  - rewrite Z.min_l by lia. apply firstn_all2. rewrite length_skipn. lia.
  - rewrite Z.min_r by lia. rewrite !skipn_all2 by lia. apply firstn_nil.
Qed.

Lemma py_slice_short {A} (l : list A) (start count : Z) :
  0 < count -> Z.of_nat (length l) - start < count ->
  (length (py_slice l start (start + count)) < Z.to_nat count)%nat.
Proof.
  intros Hc Hl.
  pose proof (py_slice_length l start (start + count)) as E. cbv zeta in E.
  unfold clamp_index in E.
  destruct (Z.ltb_spec start 0), (Z.ltb_spec (start + count) 0); lia.
Qed.

(** ** The fixed-width methods, unfolded *)

Lemma MemoryReader_read_num_eq (c : code) (r : MemoryReader.t) :
  MemoryReader.read_num c r
  = (unpack (MemoryReader.endian r) c
       (py_slice (MemoryReader.buffer r) (MemoryReader.offset r)
          (MemoryReader.offset r + Z.of_nat (size c))),
     {| MemoryReader.buffer := MemoryReader.buffer r;
        MemoryReader.endian := MemoryReader.endian r;
        MemoryReader.offset := MemoryReader.offset r + Z.of_nat (size c) |}).
Proof. destruct c; reflexivity. Qed.

Lemma Reader_read_num_eq (c : code) (r : Reader.t) :
  let s := Reader.buffer r in
  let avail := skipn (Stream.pos s) (Stream.data s) in
  let n := Nat.min (size c) (length avail) in
  Reader.read_num c r
  = (unpack (Reader.endian r) c (firstn n avail),
     {| Reader.buffer := {| Stream.data := Stream.data s;
                            Stream.pos := (Stream.pos s + n)%nat |};
        Reader.endian := Reader.endian r |}).
Proof. destruct c; reflexivity. Qed.

Lemma MemoryWriter_write_num_eq (c : code) (v : Z) (w : MemoryWriter.t) :
  MemoryWriter.write_num c v w
  = match pack (MemoryWriter.endian w) c v with
    | Ok buf => (Ok tt, {| MemoryWriter.endian := MemoryWriter.endian w;
                           MemoryWriter.buffer := MemoryWriter.buffer w ++ buf |})
    | Raise e => (Raise e, w)
    | OutOfFuel => (OutOfFuel, w)
    end.
Proof.
  destruct c; cbv [MemoryWriter.write_num];
    [ unfold MemoryWriter.write_i8 | unfold MemoryWriter.write_i16
    | unfold MemoryWriter.write_i32 | unfold MemoryWriter.write_i64
    | unfold MemoryWriter.write_u8 | unfold MemoryWriter.write_u16
    | unfold MemoryWriter.write_u32 | unfold MemoryWriter.write_u64 ];
    unfold bind, lift, MemoryWriter.get_endian, MemoryWriter.write;
    match goal with |- context [pack ?e ?c ?v] => destruct (pack e c v) end;
    reflexivity.
Qed.

Lemma Writer_write_num_eq (c : code) (v : Z) (w : Writer.t) :
  Writer.write_num c v w
  = match pack (Writer.endian w) c v with
    | Ok buf => (Ok tt, {| Writer.buffer := snd (Stream.write buf (Writer.buffer w));
                           Writer.endian := Writer.endian w |})
    | Raise e => (Raise e, w)
    | OutOfFuel => (OutOfFuel, w)
    end.
Proof.
  destruct c; cbv [Writer.write_num];
    [ unfold Writer.write_i8 | unfold Writer.write_i16
    | unfold Writer.write_i32 | unfold Writer.write_i64
    | unfold Writer.write_u8 | unfold Writer.write_u16
    | unfold Writer.write_u32 | unfold Writer.write_u64 ];
    unfold bind, lift, Writer.get_endian, Writer.write, Writer.on_buffer, ret;
    match goal with |- context [pack ?e ?c ?v] => destruct (pack e c v) as [buf| |] end;
    try reflexivity;
    destruct buf; reflexivity.
Qed.

(** ** Fixed-width integers *)

(** C1.  For each of the eight formats, both byte orders and every value in
    the range of the format: a fresh [MemoryWriter] accepts the value, writes
    exactly [size] bytes, and a [MemoryReader] of the same byte order over the
    written buffer reads the value back. *)
Theorem write_read_roundtrip (c : code) (e : endian) (v : Z) :
  min_value c <= v <= max_value c ->
  exists w,
    MemoryWriter.write_num c v (MemoryWriter.init e) = (Ok tt, w)
    /\ length (MemoryWriter.buffer w) = size c
    /\ fst (MemoryReader.read_num c (MemoryReader.init (MemoryWriter.buffer w) e))
       = Ok v.
Proof.
  intros Hv. apply in_range_iff in Hv.
  pose proof (unpack_pack e c v Hv) as Hrt.
  rewrite MemoryWriter_write_num_eq.
  cbn [MemoryWriter.init MemoryWriter.endian MemoryWriter.buffer app].
  destruct (pack e c v) as [bs| |] eqn:Hp; try discriminate.
  cbn [result_bind] in Hrt.
  pose proof (pack_length _ _ _ _ Hp) as Hlen.
  eexists. split; [reflexivity|].
  cbn [MemoryWriter.buffer app]. split; [exact Hlen|].
  rewrite MemoryReader_read_num_eq.
  cbn [fst MemoryReader.init MemoryReader.buffer MemoryReader.endian
       MemoryReader.offset].
  rewrite py_slice_inside by lia.
  rewrite Nat2Z.id. change (Z.to_nat 0) with 0%nat.
  cbn [skipn]. rewrite <- Hlen, firstn_all. exact Hrt.
Qed.

Lemma write_read_roundtrip_witness :
  exists w,
    MemoryWriter.write_num fmt_h (-2) (MemoryWriter.init Big) = (Ok tt, w)
    /\ length (MemoryWriter.buffer w) = size fmt_h
    /\ fst (MemoryReader.read_num fmt_h
              (MemoryReader.init (MemoryWriter.buffer w) Big)) = Ok (-2).
Proof.
  apply (write_read_roundtrip fmt_h Big (-2)). vm_compute. split; discriminate.
Defined.

(** C9.  The bytes of 0x12345678 written little-endian, and what the two byte
    orders read from them. *)
Theorem u32_scenario :
  MemoryWriter.write_u32 305419896 (MemoryWriter.init Little)
  = (Ok tt, {| MemoryWriter.endian := Little;
               MemoryWriter.buffer := [x78; x56; x34; x12] |})
  /\ fst (MemoryReader.read_u32 (MemoryReader.init [x78; x56; x34; x12] Little))
     = Ok 305419896
  /\ fst (MemoryReader.read_u32 (MemoryReader.init [x78; x56; x34; x12] Big))
     = Ok 2018915346.
Proof. repeat split. Qed.

(** C6.  A value outside the range of the format makes every fixed-width
    write of [MemoryWriter] and of [Writer] raise [struct.error], and the
    writer (its buffer, respectively its stream) is left as it was. *)
Theorem write_out_of_range (c : code) (v : Z) :
  ~ (min_value c <= v <= max_value c) ->
  (forall w : MemoryWriter.t,
      MemoryWriter.write_num c v w = (Raise StructError, w))
  /\ (forall w : Writer.t,
      Writer.write_num c v w = (Raise StructError, w)).
Proof.
  intros Hv.
  assert (Hr : in_range c v = false).
  { destruct (in_range c v) eqn:E; [|reflexivity].
    apply in_range_iff in E. contradiction. }
  split; intros w.
  - rewrite MemoryWriter_write_num_eq. unfold pack. now rewrite Hr.
  - rewrite Writer_write_num_eq. unfold pack. now rewrite Hr.
Qed.

Lemma write_out_of_range_witness :
  (forall w : MemoryWriter.t,
      MemoryWriter.write_num fmt_B 300 w = (Raise StructError, w))
  /\ (forall w : Writer.t,
      Writer.write_num fmt_B 300 w = (Raise StructError, w)).
Proof.
  apply (write_out_of_range fmt_B 300). vm_compute. intros [_ H]. apply H. reflexivity.
Defined.

(** C2.  When fewer bytes are left than the format needs, a fixed-width read
    raises [struct.error] and returns no integer, for [MemoryReader] and for
    [Reader] alike. *)
Theorem read_underflow (c : code) :
  (forall r : MemoryReader.t,
      Z.of_nat (length (MemoryReader.buffer r)) - MemoryReader.offset r
      < Z.of_nat (size c) ->
      fst (MemoryReader.read_num c r) = Raise StructError)
  /\ (forall r : Reader.t,
      Z.of_nat (length (Stream.data (Reader.buffer r)))
      - Z.of_nat (Stream.pos (Reader.buffer r)) < Z.of_nat (size c) ->
      fst (Reader.read_num c r) = Raise StructError).
Proof.
  assert (Hs : 0 < Z.of_nat (size c)) by (destruct c; reflexivity).
  split; intros r Hr.
  - rewrite MemoryReader_read_num_eq. cbn [fst].
    apply unpack_wrong_size.
    pose proof (py_slice_short (MemoryReader.buffer r) (MemoryReader.offset r)
                  (Z.of_nat (size c)) Hs Hr).
    lia.
  - rewrite Reader_read_num_eq. cbv zeta. cbn [fst].
    apply unpack_wrong_size.
    rewrite length_firstn, length_skipn. lia.
Qed.

Lemma read_underflow_witness :
  fst (MemoryReader.read_i32
         {| MemoryReader.buffer := [x01; x02; x03; x04; x05; x06];
            MemoryReader.endian := Little; MemoryReader.offset := 4 |})
  = Raise StructError
  /\ fst (Reader.read_u32
            {| Reader.buffer := {| Stream.data := [x01; x02; x03; x04; x05; x06];
                                   Stream.pos := 4 |};
               Reader.endian := Big |})
     = Raise StructError.
Proof.
  split.
  - apply (proj1 (read_underflow fmt_i)). simpl. lia.
  - apply (proj2 (read_underflow fmt_I)). simpl. lia.
Defined.

(** ** UTF-8 *)

Ltac dm := Z.div_mod_to_equations; lia.

Ltac decide_tests :=
  repeat (match goal with
          | |- context [?x =? ?y] =>
              destruct (Z.eqb_spec x y); try (exfalso; dm)
          | |- context [?x <? ?y] =>
              destruct (Z.ltb_spec x y); try (exfalso; dm)
          | |- context [?x <=? ?y] =>
              destruct (Z.leb_spec x y); try (exfalso; dm)
          end; cbn [andb]).

Lemma Ok_inj {A} (a b : A) : Ok a = Ok b -> a = b.
Proof. congruence. Qed.

Lemma decode_cons (b0 : byte) (r0 : list byte) :
  Utf8.decode (b0 :: r0) =
    let x0 := Z_of_byte b0 in
    if x0 <? 0x80 then result_map (cons x0) (Utf8.decode r0)
    else if x0 <? 0xC2 then Raise UnicodeDecodeError
    else if x0 <? 0xE0 then
      match r0 with
      | b1 :: r1 =>
          if Utf8.cont b1
          then result_map (cons ((x0 - 0xC0) * 64 + Utf8.low6 b1)) (Utf8.decode r1)
          else Raise UnicodeDecodeError
      | _ => Raise UnicodeDecodeError
      end
    else if x0 <? 0xF0 then
      match r0 with
      | b1 :: b2 :: r2 =>
          if Utf8.between (if x0 =? 0xE0 then 0xA0 else 0x80)
                          (if x0 =? 0xED then 0x9F else 0xBF) b1
             && Utf8.cont b2
          then result_map
                 (cons ((x0 - 0xE0) * 4096 + Utf8.low6 b1 * 64 + Utf8.low6 b2))
                 (Utf8.decode r2)
          else Raise UnicodeDecodeError
      | _ => Raise UnicodeDecodeError
      end
    else if x0 <? 0xF5 then
      match r0 with
      | b1 :: b2 :: b3 :: r3 =>
          if Utf8.between (if x0 =? 0xF0 then 0x90 else 0x80)
                          (if x0 =? 0xF4 then 0x8F else 0xBF) b1
             && Utf8.cont b2 && Utf8.cont b3
          then result_map
                 (cons ((x0 - 0xF0) * 262144 + Utf8.low6 b1 * 4096
                        + Utf8.low6 b2 * 64 + Utf8.low6 b3))
                 (Utf8.decode r3)
          else Raise UnicodeDecodeError
      | _ => Raise UnicodeDecodeError
      end
    else Raise UnicodeDecodeError.
Proof. reflexivity. Qed.

(** Unfold one step of the decoder on the bytes of one encoded character and
    settle every range test by arithmetic. *)
Ltac decode_step c :=
  let E := fresh "E" in
  intros E; apply Ok_inj in E; subst;
  rewrite <- ?app_comm_cons, app_nil_l;
  rewrite decode_cons; cbv beta iota zeta;
  unfold Utf8.cont, Utf8.between, Utf8.low6;
  rewrite !Z_of_byte_of_Z by dm;
  decide_tests;
  first [ reflexivity
        | match goal with
          | |- result_map (cons ?x) _ = _ => replace x with c by dm
          end; reflexivity ].

Lemma decode_encode_char (c : Z) (bs rest : list byte) :
  Utf8.encode_char c = Ok bs ->
  Utf8.decode (bs ++ rest) = result_map (cons c) (Utf8.decode rest).
Proof.
  unfold Utf8.encode_char, Utf8.is_surrogate.
  destruct (Z.ltb_spec c 0); [discriminate|].
  destruct (Z.ltb_spec c 0x80); [decode_step c|].
  destruct (Z.ltb_spec c 0x800); [decode_step c|].
  destruct (Z.ltb_spec c 0x10000).
  { destruct (Z.leb_spec 0xD800 c), (Z.leb_spec c 0xDFFF); cbn [andb];
      try discriminate; decode_step c. }
  destruct (Z.ltb_spec c 0x110000); [|discriminate].
  decode_step c.
Qed.

Lemma decode_encode (s : Utf8.str) (bs : list byte) :
  Utf8.encode s = Ok bs -> Utf8.decode bs = Ok s.
Proof.
  revert bs. induction s as [|c s IH]; intros bs; cbn [Utf8.encode].
  - now intros [= <-].
  - destruct (Utf8.encode_char c) as [cs| |] eqn:Ec; try discriminate.
    cbn [result_bind]. unfold result_map.
    destruct (Utf8.encode s) as [ss| |]; try discriminate.
    cbn [result_bind]. intros [= <-].
    rewrite (decode_encode_char _ _ _ Ec), (IH ss eq_refl). reflexivity.
Qed.

(** ** One-byte reads and the terminator scan of [MemoryReader] *)

Lemma i8_range (b : byte) : -128 <= i8 b <= 127.
Proof.
  unfold i8. pose proof (Z_of_byte_range b).
  cbv zeta. destruct (Z.leb_spec 128 (Z_of_byte b)); lia.
Qed.

Lemma i8_nonneg (b : byte) : 0 <= i8 b -> i8 b = Z_of_byte b.
Proof.
  unfold i8. pose proof (Z_of_byte_range b).
  cbv zeta. destruct (Z.leb_spec 128 (Z_of_byte b)); lia.
Qed.

Lemma unpack_b (e : endian) (buf : list byte) :
  unpack e fmt_b buf
  = match buf with
    | [b] => Ok (i8 b)
    | _ => Raise StructError
    end.
Proof.
  destruct buf as [|b [|b' buf]]; try reflexivity.
  unfold unpack, i8. cbn [length size Nat.eqb signed andb].
  replace (int_from_bytes_le (order e [b])) with (Z_of_byte b)
    by (destruct e; cbn [order rev app int_from_bytes_le]; lia).
  reflexivity.
Qed.

(** The reader with its cursor moved by [count]: the state every [read]
    leaves. *)
Lemma MemoryReader_read_i8_eq (r : MemoryReader.t) :
  MemoryReader.read_i8 r
  = (match py_slice (MemoryReader.buffer r) (MemoryReader.offset r)
             (MemoryReader.offset r + 1) with
     | [b] => Ok (i8 b)
     | _ => Raise StructError
     end,
     snd (MemoryReader.read 1 r)).
Proof.
  change MemoryReader.read_i8 with (MemoryReader.read_num fmt_b).
  rewrite MemoryReader_read_num_eq, unpack_b. reflexivity.
Qed.

Lemma py_slice_one {A} (l : list A) (o : Z) (x : A) (rest : list A) :
  0 <= o -> skipn (Z.to_nat o) l = x :: rest ->
  py_slice l o (o + 1) = [x].
Proof.
  intros Ho E.
  assert (o + 1 <= Z.of_nat (length l)).
  { destruct (Z_lt_le_dec o (Z.of_nat (length l))); [lia|].
    rewrite skipn_all2 in E by lia. discriminate. }
  rewrite py_slice_inside, E by lia. reflexivity.
Qed.

Lemma py_slice_one_end {A} (l : list A) (o : Z) :
  Z.of_nat (length l) <= o -> py_slice l o (o + 1) = [].
Proof.
  intros Ho. rewrite py_slice_cut by lia. apply skipn_all2. lia.
Qed.

Lemma skipn_succ {A} (l : list A) (n : nat) (x : A) (rest : list A) :
  skipn n l = x :: rest -> skipn (S n) l = rest.
Proof.
  intros E. change (S n) with (1 + n)%nat.
  rewrite <- skipn_skipn, E. reflexivity.
Qed.

(** A successful one-byte read uses up one of the [readable] bytes. *)
Lemma readable_decreases (r : MemoryReader.t) (b : byte) :
  py_slice (MemoryReader.buffer r) (MemoryReader.offset r)
    (MemoryReader.offset r + 1) = [b] ->
  (readable (snd (MemoryReader.read 1 r)) < readable r)%nat.
Proof.
  intros E.
  pose proof (py_slice_length (MemoryReader.buffer r) (MemoryReader.offset r)
                (MemoryReader.offset r + 1)) as L.
  rewrite E in L. cbv zeta in L. cbn [length] in L.
  unfold readable, clamp_index in *.
  cbn [snd MemoryReader.read MemoryReader.buffer MemoryReader.offset].
  set (len := Z.of_nat (length (MemoryReader.buffer r))) in *.
  set (o := MemoryReader.offset r) in *.
  destruct (Z.ltb_spec o 0), (Z.ltb_spec (o + 1) 0),
    (Z.leb_spec (- len) o), (Z.leb_spec (- len) (o + 1)); lia.
Qed.

Lemma readable_le_length (r : MemoryReader.t) :
  (readable r <= length (MemoryReader.buffer r))%nat.
Proof.
  unfold readable.
  set (len := Z.of_nat (length (MemoryReader.buffer r))) in *.
  set (o := MemoryReader.offset r) in *.
  destruct (Z.ltb_spec o 0), (Z.leb_spec (- len) o); lia.
Qed.

Section Scan.

Variable terminator : Z.

(** The scan raises [struct.error] when it starts in a set of states that
    one-byte reads do not leave and in which no byte read is the
    terminator. *)
Lemma MemoryReader_scan_raises (I : MemoryReader.t -> Prop) :
  (forall r b,
      I r ->
      py_slice (MemoryReader.buffer r) (MemoryReader.offset r)
        (MemoryReader.offset r + 1) = [b] ->
      i8 b <> terminator /\ I (snd (MemoryReader.read 1 r))) ->
  forall fuel r n,
    I r -> (readable r < fuel)%nat ->
    fst (MemoryReader.strz_scan fuel terminator n r) = Raise StructError.
Proof.
  intros Hstep. induction fuel as [|fuel IH]; intros r n Hr Hf; [lia|].
  cbn [MemoryReader.strz_scan]. unfold bind at 1.
  rewrite MemoryReader_read_i8_eq.
  destruct (py_slice _ _ _) as [|b [|b' l]] eqn:E; try reflexivity.
  destruct (Hstep r b Hr E) as [Hb Hr'].
  apply Z.eqb_neq in Hb. rewrite Hb.
  apply IH; [exact Hr'|].
  pose proof (readable_decreases r b E). lia.
Qed.

(** The scan never exhausts a budget above [readable]. *)
Lemma MemoryReader_scan_total :
  forall fuel r n,
    (readable r < fuel)%nat ->
    fst (MemoryReader.strz_scan fuel terminator n r) <> OutOfFuel.
Proof.
  induction fuel as [|fuel IH]; intros r n Hf; [lia|].
  cbn [MemoryReader.strz_scan]. unfold bind at 1.
  rewrite MemoryReader_read_i8_eq.
  destruct (py_slice _ _ _) as [|b [|b' l]] eqn:E; try discriminate.
  destruct (i8 b =? terminator); [discriminate|].
  apply IH. pose proof (readable_decreases r b E). lia.
Qed.

(** What a scan that returns has done: it stopped one byte after the
    terminator, inside the buffer. *)
Lemma MemoryReader_scan_returns :
  forall fuel r n m r',
    MemoryReader.strz_scan fuel terminator n r = (Ok m, r') ->
    0 <= MemoryReader.offset r ->
    MemoryReader.buffer r' = MemoryReader.buffer r
    /\ MemoryReader.endian r' = MemoryReader.endian r
    /\ n <= m
    /\ MemoryReader.offset r' = MemoryReader.offset r + (m - n) + 1
    /\ MemoryReader.offset r' <= Z.of_nat (length (MemoryReader.buffer r)).
Proof.
  induction fuel as [|fuel IH]; intros r n m r'; [discriminate|].
  cbn [MemoryReader.strz_scan]. unfold bind at 1.
  rewrite MemoryReader_read_i8_eq.
  destruct (py_slice _ _ _) as [|b [|b' l]] eqn:E; try discriminate.
  intros H Ho.
  assert (Hin : MemoryReader.offset r + 1
                <= Z.of_nat (length (MemoryReader.buffer r))).
  { pose proof (py_slice_length (MemoryReader.buffer r) (MemoryReader.offset r)
                  (MemoryReader.offset r + 1)) as L.
    rewrite E in L. cbv zeta in L. cbn [length] in L.
    unfold clamp_index in L.
    destruct (Z.ltb_spec (MemoryReader.offset r) 0),
      (Z.ltb_spec (MemoryReader.offset r + 1) 0); lia. }
  destruct (i8 b =? terminator).
  - unfold ret in H. injection H as <- <-.
    cbn [snd MemoryReader.read MemoryReader.buffer MemoryReader.endian
           MemoryReader.offset]. repeat split; lia.
  - apply IH in H;
      cbn [snd MemoryReader.read MemoryReader.buffer MemoryReader.endian
             MemoryReader.offset] in *; [|lia].
    destruct H as (Hb & He & Hn & Hoff & Hle). repeat split; try assumption; lia.
Qed.

(** The scan over a span free of the terminator, followed by the
    terminator. *)
Lemma MemoryReader_scan_finds :
  forall (mid : list byte) fuel r n tb post,
    0 <= MemoryReader.offset r ->
    skipn (Z.to_nat (MemoryReader.offset r)) (MemoryReader.buffer r)
    = mid ++ tb :: post ->
    Forall (fun b => i8 b <> terminator) mid ->
    i8 tb = terminator ->
    (length mid < fuel)%nat ->
    MemoryReader.strz_scan fuel terminator n r
    = (Ok (n + Z.of_nat (length mid)),
       snd (MemoryReader.read (Z.of_nat (length mid) + 1) r)).
Proof.
  induction mid as [|b mid IH]; intros fuel r n tb post Ho E Hmid Htb Hf;
    (destruct fuel as [|fuel]; [cbn [length] in Hf; lia|]);
    cbn [MemoryReader.strz_scan]; unfold bind at 1;
    rewrite MemoryReader_read_i8_eq;
    cbn [app] in E; rewrite (py_slice_one _ _ _ _ Ho E).
  - apply Z.eqb_eq in Htb. rewrite Htb. unfold ret.
    cbn [length Z.of_nat]. rewrite Z.add_0_r. reflexivity.
  - inversion Hmid as [|? ? Hb Hmid']; subst.
    apply Z.eqb_neq in Hb. rewrite Hb.
    rewrite (IH fuel _ (n + 1) tb post);
      cbn [snd MemoryReader.read MemoryReader.buffer MemoryReader.offset];
      try assumption; try lia.
    + f_equal; [f_equal; cbn [length]; lia|].
      f_equal. cbn [length]. lia.
    + replace (Z.to_nat (MemoryReader.offset r + 1))
        with (S (Z.to_nat (MemoryReader.offset r))) by lia.
      exact (skipn_succ _ _ _ _ E).
    + cbn [length] in Hf. lia.
Qed.

End Scan.

(** ** [read_strz] of [MemoryReader] *)

Lemma MemoryReader_read_strz_raises (t : Z) (r : MemoryReader.t) :
  fst (MemoryReader.strz_scan (S (length (MemoryReader.buffer r))) t 0 r)
  = Raise StructError ->
  fst (MemoryReader.read_strz t r) = Raise StructError.
Proof.
  intros H. unfold MemoryReader.read_strz, MemoryReader.read_strz_fuel.
  unfold bind at 1. cbn [MemoryReader.tell]. unfold bind at 1.
  destruct (MemoryReader.strz_scan _ t 0 r) as [[m|e|] r'];
    cbn [fst] in *; congruence.
Qed.

Lemma decode_total (bs : list byte) : Utf8.decode bs <> OutOfFuel.
Proof.
  assert (Hmap : forall (f : Utf8.str -> Utf8.str) x,
             x <> OutOfFuel -> result_map f x <> OutOfFuel).
  { intros f [a|e|]; cbn; congruence. }
  remember (length bs) as n eqn:Hn. revert bs Hn.
  induction n as [n IH] using lt_wf_ind. intros bs Hn.
  destruct bs as [|b0 r0]; [discriminate|].
  rewrite decode_cons. cbv zeta.
  repeat match goal with
         | |- (if ?c then _ else _) <> _ => destruct c
         | |- match ?l with [] => _ | _ :: _ => _ end <> _ => destruct l
         | |- Raise _ <> _ => discriminate
         | |- result_map _ _ <> _ =>
             apply Hmap; eapply IH; [|reflexivity]; subst n; cbn [length]; lia
         end.
Qed.

Theorem MemoryReader_read_strz_total (t : Z) (r : MemoryReader.t) :
  fst (MemoryReader.read_strz t r) <> OutOfFuel.
Proof.
  unfold MemoryReader.read_strz, MemoryReader.read_strz_fuel.
  unfold bind at 1. cbn [MemoryReader.tell]. unfold bind at 1.
  pose proof (MemoryReader_scan_total t (S (length (MemoryReader.buffer r))) r 0) as Hs.
  pose proof (readable_le_length r).
  destruct (MemoryReader.strz_scan _ t 0 r) as [[m|e|] r'];
    cbn [fst] in *; [|discriminate|exfalso; apply Hs; [lia|reflexivity]].
  unfold bind at 1. cbn [MemoryReader.seek].
  unfold MemoryReader.read_str. unfold bind at 1. unfold bind at 1.
  cbn [MemoryReader.read]. unfold lift.
  pose proof (decode_total (py_slice (MemoryReader.buffer r')
                              (MemoryReader.offset r)
                              (MemoryReader.offset r + m))) as Hd.
  cbn [MemoryReader.buffer MemoryReader.offset].
  destruct (Utf8.decode _) as [s|e|]; cbn; congruence.
Qed.

(** ** One-byte reads and the terminator scan of [Reader] *)

Lemma Reader_read_i8_eq (r : Reader.t) :
  Reader.read_i8 r
  = match skipn (Stream.pos (Reader.buffer r)) (Stream.data (Reader.buffer r)) with
    | [] => (Raise StructError,
             {| Reader.buffer :=
                  {| Stream.data := Stream.data (Reader.buffer r);
                     Stream.pos := (Stream.pos (Reader.buffer r) + 0)%nat |};
                Reader.endian := Reader.endian r |})
    | b :: _ => (Ok (i8 b),
                 {| Reader.buffer :=
                      {| Stream.data := Stream.data (Reader.buffer r);
                         Stream.pos := (Stream.pos (Reader.buffer r) + 1)%nat |};
                    Reader.endian := Reader.endian r |})
    end.
Proof.
  change Reader.read_i8 with (Reader.read_num fmt_b).
  rewrite Reader_read_num_eq. cbv zeta. rewrite unpack_b.
  destruct (skipn _ _) as [|b rest]; reflexivity.
Qed.

Section ReaderScan.

Variable terminator : Z.

Lemma Reader_scan_raises :
  forall fuel r n,
    Forall (fun b => i8 b <> terminator)
      (skipn (Stream.pos (Reader.buffer r)) (Stream.data (Reader.buffer r))) ->
    (length (Stream.data (Reader.buffer r)) - Stream.pos (Reader.buffer r)
     < fuel)%nat ->
    fst (Reader.strz_scan fuel terminator n r) = Raise StructError.
Proof.
  induction fuel as [|fuel IH]; intros r n Hall Hf; [lia|].
  cbn [Reader.strz_scan]. unfold bind at 1. rewrite Reader_read_i8_eq.
  destruct (skipn _ _) as [|b rest] eqn:E; [reflexivity|].
  inversion Hall as [|? ? Hb Hrest]; subst.
  apply Z.eqb_neq in Hb. rewrite Hb.
  assert (Hlen : (Stream.pos (Reader.buffer r)
                  < length (Stream.data (Reader.buffer r)))%nat).
  { destruct (Nat.lt_ge_cases (Stream.pos (Reader.buffer r))
                (length (Stream.data (Reader.buffer r)))); [assumption|].
    rewrite skipn_all2 in E by lia. discriminate. }
  apply IH; cbn [Reader.buffer Stream.data Stream.pos].
  - rewrite Nat.add_1_r, (skipn_succ _ _ _ _ E). exact Hrest.
  - lia.
Qed.

Lemma Reader_scan_total :
  forall fuel r n,
    (length (Stream.data (Reader.buffer r)) - Stream.pos (Reader.buffer r)
     < fuel)%nat ->
    fst (Reader.strz_scan fuel terminator n r) <> OutOfFuel.
Proof.
  induction fuel as [|fuel IH]; intros r n Hf; [lia|].
  cbn [Reader.strz_scan]. unfold bind at 1. rewrite Reader_read_i8_eq.
  destruct (skipn _ _) as [|b rest] eqn:E; [discriminate|].
  destruct (i8 b =? terminator); [discriminate|].
  assert (Hlen : (Stream.pos (Reader.buffer r)
                  < length (Stream.data (Reader.buffer r)))%nat).
  { destruct (Nat.lt_ge_cases (Stream.pos (Reader.buffer r))
                (length (Stream.data (Reader.buffer r)))); [assumption|].
    rewrite skipn_all2 in E by lia. discriminate. }
  apply IH; cbn [Reader.buffer Stream.data Stream.pos]. lia.
Qed.

End ReaderScan.

Lemma Reader_read_strz_raises (t : Z) (r : Reader.t) :
  fst (Reader.strz_scan (S (length (Stream.data (Reader.buffer r)))) t 0 r)
  = Raise StructError ->
  fst (Reader.read_strz t r) = Raise StructError.
Proof.
  intros H. unfold Reader.read_strz, Reader.read_strz_fuel.
  unfold bind at 1. unfold Reader.tell, Reader.on_buffer. cbn [Stream.tell].
  replace {| Reader.buffer := Reader.buffer r; Reader.endian := Reader.endian r |}
    with r by (destruct r; reflexivity).
  unfold bind at 1.
  destruct (Reader.strz_scan _ t 0 r) as [[m|e|] r'];
    cbn [fst] in *; congruence.
Qed.

(** A byte that is not the terminator does not read as the terminator. *)
Lemma i8_not_terminator (t : Z) (l : list byte) :
  0 <= t <= 255 -> ~ In (byte_of_Z t) l ->
  Forall (fun b => i8 b <> t) l.
Proof.
  intros Ht Hnot. apply Forall_forall. intros b Hb E.
  apply Hnot. replace (byte_of_Z t) with b; [exact Hb|].
  rewrite <- E, i8_nonneg by lia. symmetry. apply byte_of_Z_of_byte.
Qed.

(** C8.  With a terminator in the range of a byte and no such byte between
    the cursor and the end of the data, [read_strz] raises [struct.error],
    the error of a fixed-width read at the end of the data, for
    [MemoryReader] and for [Reader]. *)
Theorem read_strz_without_terminator (t : Z) :
  0 <= t <= 255 ->
  (forall r : MemoryReader.t,
      0 <= MemoryReader.offset r ->
      ~ In (byte_of_Z t)
          (skipn (Z.to_nat (MemoryReader.offset r)) (MemoryReader.buffer r)) ->
      fst (MemoryReader.read_strz t r) = Raise StructError)
  /\ (forall r : Reader.t,
      ~ In (byte_of_Z t)
          (skipn (Stream.pos (Reader.buffer r)) (Stream.data (Reader.buffer r))) ->
      fst (Reader.read_strz t r) = Raise StructError).
Proof.
  intros Ht. split.
  - intros r Ho Hnot. apply MemoryReader_read_strz_raises.
    apply (MemoryReader_scan_raises t
             (fun r' => 0 <= MemoryReader.offset r'
                        /\ Forall (fun b => i8 b <> t)
                             (skipn (Z.to_nat (MemoryReader.offset r'))
                                (MemoryReader.buffer r')))).
    + intros r' b [Hoff Hall] E.
      destruct (skipn (Z.to_nat (MemoryReader.offset r')) (MemoryReader.buffer r'))
        as [|x rest] eqn:Es.
      * apply (f_equal (@length byte)) in Es. rewrite length_skipn in Es.
        cbn [length] in Es.
        rewrite py_slice_one_end in E by lia. discriminate.
      * rewrite (py_slice_one _ _ _ _ Hoff Es) in E. injection E as ->.
        inversion Hall as [|? ? Hb Hrest]; subst. split; [exact Hb|].
        cbn [snd MemoryReader.read MemoryReader.buffer MemoryReader.offset].
        split; [lia|].
        replace (Z.to_nat (MemoryReader.offset r' + 1))
          with (S (Z.to_nat (MemoryReader.offset r'))) by lia.
        rewrite (skipn_succ _ _ _ _ Es). exact Hrest.
    + split; [exact Ho|]. apply i8_not_terminator; assumption.
    + pose proof (readable_le_length r). lia.
  - intros r Hnot. apply Reader_read_strz_raises.
    apply Reader_scan_raises; [|lia].
    apply i8_not_terminator; assumption.
Qed.

Lemma read_strz_without_terminator_witness :
  fst (MemoryReader.read_strz 0
         {| MemoryReader.buffer := [x00; x61; x62; x63];
            MemoryReader.endian := Little; MemoryReader.offset := 1 |})
  = Raise StructError
  /\ fst (Reader.read_strz 0
            {| Reader.buffer := {| Stream.data := [x00; x61; x62; x63];
                                   Stream.pos := 1 |};
               Reader.endian := Little |})
     = Raise StructError.
Proof.
  assert (Ht : 0 <= 0 <= 255) by lia.
  split.
  - apply (proj1 (read_strz_without_terminator 0 Ht)).
    + simpl. lia.
    + simpl. intros [H|[H|[H|[]]]]; discriminate H.
  - apply (proj2 (read_strz_without_terminator 0 Ht)).
    simpl. intros [H|[H|[H|[]]]]; discriminate H.
Defined.

(** C10.  A terminator from 128 to 255 is never found: the scan compares it
    with bytes read as signed 8-bit integers, so [read_strz] runs to the end
    of the data and raises [struct.error] whatever the buffer holds and
    wherever the cursor is. *)
Theorem read_strz_high_terminator (t : Z) (r : MemoryReader.t) :
  128 <= t <= 255 ->
  fst (MemoryReader.read_strz t r) = Raise StructError.
Proof.
  intros Ht. apply MemoryReader_read_strz_raises.
  apply (MemoryReader_scan_raises t (fun _ => True)).
  - intros r' b _ _. split; [|exact I].
    pose proof (i8_range b). lia.
  - exact I.
  - pose proof (readable_le_length r). lia.
Qed.

Lemma read_strz_high_terminator_witness :
  fst (MemoryReader.read_strz 255
         (MemoryReader.init [x61; x62; xff; x63] Little))
  = Raise StructError.
Proof.
  apply (read_strz_high_terminator 255). lia.
Defined.

(** [read_strz] on a span free of the terminator that decodes, followed by
    the terminator: the decoded span, and the cursor just after the
    terminator. *)
Lemma MemoryReader_read_strz_found (t : Z) (r : MemoryReader.t)
      (mid : list byte) (tb : byte) (post : list byte) (s : Utf8.str) :
  0 <= MemoryReader.offset r ->
  skipn (Z.to_nat (MemoryReader.offset r)) (MemoryReader.buffer r)
  = mid ++ tb :: post ->
  Forall (fun b => i8 b <> t) mid ->
  i8 tb = t ->
  Utf8.decode mid = Ok s ->
  MemoryReader.read_strz t r
  = (Ok s,
     {| MemoryReader.buffer := MemoryReader.buffer r;
        MemoryReader.endian := MemoryReader.endian r;
        MemoryReader.offset :=
          MemoryReader.offset r + Z.of_nat (length mid) + 1 |}).
Proof.
  intros Ho E Hmid Htb Hdec.
  assert (Hlen : (Z.to_nat (MemoryReader.offset r) + length mid
                  < length (MemoryReader.buffer r))%nat).
  { pose proof (f_equal (@length byte) E) as L.
    rewrite length_skipn, length_app in L. cbn [length] in L. lia. }
  unfold MemoryReader.read_strz, MemoryReader.read_strz_fuel.
  unfold bind at 1. cbn [MemoryReader.tell]. unfold bind at 1.
  rewrite (MemoryReader_scan_finds t mid _ r 0 tb post Ho E Hmid Htb) by lia.
  unfold bind at 1. cbn [snd MemoryReader.read MemoryReader.seek
                           MemoryReader.buffer MemoryReader.endian].
  unfold MemoryReader.read_str. unfold bind at 1. unfold bind at 1.
  cbn [MemoryReader.read MemoryReader.buffer MemoryReader.endian
         MemoryReader.offset].
  rewrite py_slice_inside; [|lia..].
  replace (Z.to_nat (0 + Z.of_nat (length mid))) with (length mid) by lia.
  rewrite E, firstn_app, Nat.sub_diag, firstn_all, firstn_O, app_nil_r.
  unfold lift. rewrite Hdec.
  unfold MemoryReader.skip, bind, ret.
  cbn [MemoryReader.tell MemoryReader.seek MemoryReader.buffer
         MemoryReader.endian MemoryReader.offset].
  reflexivity.
Qed.

Lemma MemoryWriter_write_strz_eq (s : Utf8.str) (bs : list byte)
      (w : MemoryWriter.t) :
  Utf8.encode s = Ok bs ->
  MemoryWriter.write_strz s w
  = (Ok tt, {| MemoryWriter.endian := MemoryWriter.endian w;
               MemoryWriter.buffer := (MemoryWriter.buffer w ++ bs) ++ [x00] |}).
Proof.
  intros E. unfold MemoryWriter.write_strz. unfold bind at 1. unfold lift at 1.
  rewrite E. unfold bind at 1. cbn [MemoryWriter.write].
  change (MemoryWriter.write_i8 0) with (MemoryWriter.write_num fmt_b 0).
  rewrite MemoryWriter_write_num_eq.
  cbn [MemoryWriter.endian MemoryWriter.buffer].
  destruct (MemoryWriter.endian w); reflexivity.
Qed.

(** C3.  Whatever [write_strz] wrote for a string whose UTF-8 bytes hold no
    zero byte, [read_strz] from offset 0 reads that string back and leaves the
    cursor one past the length of the bytes; on the bytes of ["abc"] and a
    zero byte it returns ["abc"] with the cursor at 4. *)
Theorem strz_roundtrip :
  (forall (s : Utf8.str) (bs : list byte) (e e' : endian),
      Utf8.encode s = Ok bs ->
      ~ In x00 bs ->
      exists w,
        MemoryWriter.write_strz s (MemoryWriter.init e) = (Ok tt, w)
        /\ MemoryWriter.buffer w = bs ++ [x00]
        /\ exists r',
            MemoryReader.read_strz 0 (MemoryReader.init (MemoryWriter.buffer w) e')
            = (Ok s, r')
            /\ MemoryReader.offset r' = Z.of_nat (length bs) + 1)
  /\ MemoryReader.read_strz 0 (MemoryReader.init [x61; x62; x63; x00] Little)
     = (Ok [97; 98; 99],
        {| MemoryReader.buffer := [x61; x62; x63; x00];
           MemoryReader.endian := Little; MemoryReader.offset := 4 |}).
Proof.
  split; [|reflexivity].
  intros s bs e e' Henc Hnul.
  eexists. split; [apply (MemoryWriter_write_strz_eq s bs _ Henc)|].
  cbn [MemoryWriter.init MemoryWriter.buffer app]. split; [reflexivity|].
  eexists. split.
  - apply (MemoryReader_read_strz_found 0 _ bs x00 []).
    + cbn. lia.
    + reflexivity.
    + apply (i8_not_terminator 0); [lia | exact Hnul].
    + reflexivity.
    + apply decode_encode. exact Henc.
  - cbn [MemoryReader.offset MemoryReader.init]. lia.
Qed.

Lemma strz_roundtrip_witness :
  exists w,
    MemoryWriter.write_strz [97; 98; 99] (MemoryWriter.init Little) = (Ok tt, w)
    /\ MemoryWriter.buffer w = [x61; x62; x63] ++ [x00]
    /\ exists r',
        MemoryReader.read_strz 0 (MemoryReader.init (MemoryWriter.buffer w) Big)
        = (Ok [97; 98; 99], r')
        /\ MemoryReader.offset r' = Z.of_nat (length [x61; x62; x63]) + 1.
Proof.
  apply (proj1 strz_roundtrip [97; 98; 99] [x61; x62; x63] Little Big).
  - reflexivity.
  - simpl. intros [H|[H|[H|[]]]]; discriminate H.
Defined.

(** A string without the character U+0000 has no zero byte in its UTF-8
    form: the condition on the bytes is a condition on the string. *)
Lemma encode_char_no_zero (c : Z) (bs : list byte) :
  Utf8.encode_char c = Ok bs -> c <> 0 -> ~ In x00 bs.
Proof.
  assert (Hz : forall x, 0 <= x < 256 -> x <> 0 -> byte_of_Z x <> x00).
  { intros x Hx Hne E. apply (f_equal Z_of_byte) in E.
    rewrite Z_of_byte_of_Z in E by exact Hx. apply Hne. exact E. }
  unfold Utf8.encode_char, Utf8.is_surrogate.
  repeat match goal with
         | |- context [?x <? ?y] => destruct (Z.ltb_spec x y)
         | |- context [?x <=? ?y] => destruct (Z.leb_spec x y)
         end; cbn [andb]; try discriminate;
    intros E Hc; apply Ok_inj in E; subst bs; cbn [In];
    intros H'; repeat (destruct H' as [H'|H']; [revert H'; apply Hz; dm|]);
    exact H'.
Qed.

Lemma encode_no_zero (s : Utf8.str) (bs : list byte) :
  Utf8.encode s = Ok bs -> ~ In 0 s -> ~ In x00 bs.
Proof.
  revert bs. induction s as [|c s IH]; intros bs; cbn [Utf8.encode].
  - intros E _. apply Ok_inj in E. subst bs. intros [].
  - destruct (Utf8.encode_char c) as [cs| |] eqn:Ec; try discriminate.
    cbn [result_bind]. unfold result_map.
    destruct (Utf8.encode s) as [ss| |]; try discriminate.
    cbn [result_bind]. intros E Hs. apply Ok_inj in E. subst bs.
    intros Hin. apply in_app_or in Hin. destruct Hin as [Hin|Hin].
    + revert Hin. apply (encode_char_no_zero c cs Ec).
      intros ->. apply Hs. left. reflexivity.
    + revert Hin. apply (IH ss eq_refl). intros H. apply Hs. right. exact H.
Qed.

(** ** Exclusive-or with a one-byte key *)

Lemma lxor_byte_range (n k : Z) :
  0 <= n < 256 -> 0 <= k < 256 -> 0 <= Z.lxor n k < 256.
Proof.
  intros Hn Hk. split.
  - apply Z.lxor_nonneg. lia.
  - assert (Hs : Z.shiftr (Z.lxor n k) 8 = 0).
    { rewrite Z.shiftr_lxor, !Z.shiftr_div_pow2 by lia.
      change (2 ^ 8) with 256. rewrite !Z.div_small by lia. reflexivity. }
    rewrite Z.shiftr_div_pow2 in Hs by lia. change (2 ^ 8) with 256 in Hs.
    assert (0 <= Z.lxor n k) by (apply Z.lxor_nonneg; lia).
    apply Z.div_small_iff in Hs; lia.
Qed.

Lemma lxor_twice (n k : Z) : Z.lxor (Z.lxor n k) k = n.
Proof. now rewrite Z.lxor_assoc, Z.lxor_nilpotent, Z.lxor_0_r. Qed.

Lemma xor_bytes_eq (k : Z) (b : list byte) :
  0 <= k <= 255 -> Reader.xor_bytes k b = Ok (xor_span k b).
Proof.
  intros Hk. unfold Reader.xor_bytes, xor_span.
  induction b as [|x b IH]; [reflexivity|].
  cbn [map bytes_of_ints].
  pose proof (lxor_byte_range (Z_of_byte x) k (Z_of_byte_range x) ltac:(lia)) as Hr.
  destruct (Z.leb_spec 0 (Z.lxor (Z_of_byte x) k)); [|lia].
  destruct (Z.ltb_spec (Z.lxor (Z_of_byte x) k) 256); [|lia].
  cbn [andb]. rewrite IH. reflexivity.
Qed.

Lemma xor_span_involutive (k : Z) (b : list byte) :
  0 <= k <= 255 -> xor_span k (xor_span k b) = b.
Proof.
  intros Hk. unfold xor_span. rewrite map_map.
  rewrite <- (map_id b) at 2. apply map_ext. intros x.
  rewrite Z_of_byte_of_Z
    by (apply lxor_byte_range; [apply Z_of_byte_range | lia]).
  rewrite lxor_twice. apply byte_of_Z_of_byte.
Qed.

Lemma length_xor_span (k : Z) (b : list byte) :
  length (xor_span k b) = length b.
Proof. apply length_map. Qed.

(** C7.  With a key in the range of a byte, the transform of [read_str_xor]
    applied twice gives the span back; so [read_str_xor] with the length of
    the UTF-8 bytes of a string and the key, over the transformed bytes,
    returns the string. *)
Theorem xor_roundtrip (k : Z) :
  0 <= k <= 255 ->
  (forall b : list byte,
      exists b', Reader.xor_bytes k b = Ok b' /\ Reader.xor_bytes k b' = Ok b)
  /\ (forall (s : Utf8.str) (bs b' : list byte) (e : endian),
      Utf8.encode s = Ok bs ->
      Reader.xor_bytes k bs = Ok b' ->
      fst (Reader.read_str_xor (Z.of_nat (length bs)) k
             (Reader.init {| Stream.data := b'; Stream.pos := 0 |} e))
      = Ok s).
Proof.
  intros Hk. split.
  - intros b. exists (xor_span k b). split; [apply xor_bytes_eq; exact Hk|].
    rewrite xor_bytes_eq, xor_span_involutive by exact Hk. reflexivity.
  - intros s bs b' e Henc Hx.
    rewrite xor_bytes_eq in Hx by exact Hk. apply Ok_inj in Hx. subst b'.
    unfold Reader.read_str_xor. unfold bind at 1.
    unfold Reader.read, Reader.on_buffer, Stream.read.
    cbn [Reader.init Reader.buffer Stream.pos Stream.data skipn].
    destruct (Z.ltb_spec (Z.of_nat (length bs)) 0); [lia|].
    rewrite length_xor_span, Nat2Z.id, Nat.min_id.
    rewrite <- (length_xor_span k bs) at 1. rewrite firstn_all.
    unfold bind at 1. unfold lift at 1.
    rewrite xor_bytes_eq, xor_span_involutive by exact Hk.
    unfold lift. cbn [fst]. apply decode_encode. exact Henc.
Qed.

Lemma xor_roundtrip_witness :
  (forall b : list byte,
      exists b', Reader.xor_bytes 90 b = Ok b' /\ Reader.xor_bytes 90 b' = Ok b)
  /\ fst (Reader.read_str_xor (Z.of_nat (length [x61; x62; x63])) 90
            (Reader.init {| Stream.data := [x3b; x38; x39]; Stream.pos := 0 |}
               Little))
     = Ok [97; 98; 99].
Proof.
  assert (Hk : 0 <= 90 <= 255) by lia.
  split.
  - apply (proj1 (xor_roundtrip 90 Hk)).
  - apply (proj2 (xor_roundtrip 90 Hk) [97; 98; 99] [x61; x62; x63]);
      reflexivity.
Defined.

(** ** Writing to a stream *)

Lemma Stream_write_nonempty (b : list byte) (s : Stream.t) :
  b <> [] ->
  snd (Stream.write b s)
  = {| Stream.data := firstn (Stream.pos s) (Stream.data s)
                      ++ repeat x00 (Stream.pos s - length (Stream.data s))
                      ++ b
                      ++ skipn (Stream.pos s + length b) (Stream.data s);
       Stream.pos := (Stream.pos s + length b)%nat |}.
Proof. destruct b; [congruence | reflexivity]. Qed.

(** Two writes in a row are one write of the two buffers joined. *)
Lemma Stream_write_app (b1 b2 : list byte) (s : Stream.t) :
  snd (Stream.write b2 (snd (Stream.write b1 s)))
  = snd (Stream.write (b1 ++ b2) s).
Proof.
  destruct (list_eq_dec Byte.byte_eq_dec b1 []) as [->|H1]; [reflexivity|].
  destruct (list_eq_dec Byte.byte_eq_dec b2 []) as [->|H2];
    [rewrite app_nil_r; reflexivity|].
  assert (H12 : b1 ++ b2 <> []).
  { intros E. apply app_eq_nil in E. tauto. }
  rewrite (Stream_write_nonempty b1 s H1).
  rewrite (Stream_write_nonempty b2 _ H2).
  rewrite (Stream_write_nonempty (b1 ++ b2) s H12).
  cbn [Stream.data Stream.pos].
  destruct s as [d p]. cbn [Stream.data Stream.pos].
  set (X := firstn p d ++ repeat x00 (p - length d)).
  assert (HX : length X = p).
  { unfold X. rewrite length_app, length_firstn, repeat_length. lia. }
  replace (firstn p d ++ repeat x00 (p - length d) ++ b1
           ++ skipn (p + length b1) d)
    with ((X ++ b1) ++ skipn (p + length b1) d)
    by (unfold X; rewrite <- !app_assoc; reflexivity).
  replace (firstn p d ++ repeat x00 (p - length d) ++ (b1 ++ b2)
           ++ skipn (p + length (b1 ++ b2)) d)
    with ((X ++ b1) ++ b2 ++ skipn (p + length (b1 ++ b2)) d)
    by (unfold X; rewrite <- !app_assoc; reflexivity).
  assert (HXb : length (X ++ b1) = (p + length b1)%nat)
    by (rewrite length_app; lia).
  f_equal; [|rewrite length_app; lia].
  rewrite firstn_app, HXb, Nat.sub_diag, firstn_O, app_nil_r.
  rewrite <- HXb at 1. rewrite firstn_all.
  rewrite (length_app (X ++ b1)), HXb.
  replace (p + length b1 - (p + length b1 + length (skipn (p + length b1) d)))%nat
    with 0%nat by lia.
  cbn [repeat app].
  rewrite skipn_app, HXb.
  rewrite (skipn_all2 (X ++ b1)) by lia. cbn [app].
  rewrite skipn_skipn, length_app.
  do 3 f_equal. lia.
Qed.

Lemma firstn_app_exact {A} (l1 l2 : list A) (n : nat) :
  length l1 = n -> firstn n (l1 ++ l2) = l1.
Proof.
  intros <-. rewrite firstn_app, Nat.sub_diag, firstn_all, firstn_O.
  apply app_nil_r.
Qed.

Lemma skipn_app_exact {A} (l1 l2 : list A) (n : nat) :
  length l1 = n -> skipn n (l1 ++ l2) = l2.
Proof.
  intros <-. rewrite skipn_app, skipn_all, Nat.sub_diag. reflexivity.
Qed.

Lemma firstn_min_length {A} (l : list A) (n : nat) :
  firstn (Nat.min n (length l)) l = firstn n l.
Proof.
  destruct (Nat.le_ge_cases n (length l)).
  - rewrite Nat.min_l by assumption. reflexivity.
  - rewrite Nat.min_r by assumption. rewrite firstn_all.
    symmetry. apply firstn_all2. assumption.
Qed.

(** What a write leaves in the stream: the position moved by the length of
    the buffer, the buffer at the old position, and the data before and after
    it as they were. *)
Lemma Stream_write_spec (buf : list byte) (s : Stream.t) :
  let s' := snd (Stream.write buf s) in
  Stream.pos s' = (Stream.pos s + length buf)%nat
  /\ firstn (length buf) (skipn (Stream.pos s) (Stream.data s')) = buf
  /\ skipn (Stream.pos s + length buf) (Stream.data s')
     = skipn (Stream.pos s + length buf) (Stream.data s)
  /\ firstn (Nat.min (Stream.pos s) (length (Stream.data s))) (Stream.data s')
     = firstn (Stream.pos s) (Stream.data s).
Proof.
  destruct s as [d p].
  destruct (list_eq_dec Byte.byte_eq_dec buf []) as [->|Hne].
  - cbn [Stream.write snd Stream.pos Stream.data length firstn].
    rewrite Nat.add_0_r. repeat split.
    apply firstn_min_length.
  - cbv zeta. rewrite (Stream_write_nonempty buf _ Hne).
    cbn [Stream.pos Stream.data].
    set (X := firstn p d ++ repeat x00 (p - length d)).
    assert (HX : length X = p).
    { unfold X. rewrite length_app, length_firstn, repeat_length. lia. }
    replace (firstn p d ++ repeat x00 (p - length d) ++ buf
             ++ skipn (p + length buf) d)
      with (X ++ buf ++ skipn (p + length buf) d)
      by (unfold X; rewrite <- !app_assoc; reflexivity).
    repeat split.
    + rewrite (skipn_app_exact X _ p HX).
      apply firstn_app_exact. reflexivity.
    + rewrite app_assoc. apply skipn_app_exact.
      rewrite length_app. lia.
    + unfold X. rewrite <- app_assoc.
      rewrite firstn_app, length_firstn, Nat.sub_diag, firstn_O, app_nil_r.
      rewrite firstn_firstn.
      replace (Nat.min (Nat.min p (length d)) p) with (Nat.min p (length d))
        by lia.
      apply firstn_min_length.
Qed.

(** ** [skip] *)

Lemma Writer_write_zero (w : Writer.t) :
  Writer.write_i8 0 w
  = (Ok tt, {| Writer.buffer := snd (Stream.write [x00] (Writer.buffer w));
               Writer.endian := Writer.endian w |}).
Proof.
  change (Writer.write_i8 0) with (Writer.write_num fmt_b 0).
  rewrite Writer_write_num_eq. destruct (Writer.endian w); reflexivity.
Qed.

Lemma Writer_zero_fill (n : nat) (w : Writer.t) :
  Writer.for_range n (Writer.write_i8 0) w
  = (Ok tt,
     {| Writer.buffer := snd (Stream.write (repeat x00 n) (Writer.buffer w));
        Writer.endian := Writer.endian w |}).
Proof.
  revert w. induction n as [|n IH]; intros w.
  - destruct w. reflexivity.
  - cbn [Writer.for_range]. unfold bind. rewrite Writer_write_zero, IH.
    cbn [Writer.buffer Writer.endian].
    rewrite Stream_write_app. reflexivity.
Qed.

(** C5.  For a count that is not negative: [skip] of either reader is
    [seek] to [tell() + count] and leaves the bytes alone; [skip] of the
    [Writer] writes [count] zero bytes at the position of its stream. *)
Theorem skip_asymmetry (count : Z) :
  0 <= count ->
  (forall r : MemoryReader.t,
      MemoryReader.skip count r
      = MemoryReader.seek (MemoryReader.offset r + count) r
      /\ fst (MemoryReader.tell r) = Ok (MemoryReader.offset r)
      /\ MemoryReader.buffer (snd (MemoryReader.skip count r))
         = MemoryReader.buffer r
      /\ MemoryReader.endian (snd (MemoryReader.skip count r))
         = MemoryReader.endian r)
  /\ (forall r : Reader.t,
      Reader.skip count r
      = Reader.seek (Z.of_nat (Stream.pos (Reader.buffer r)) + count) r
      /\ fst (Reader.tell r) = Ok (Z.of_nat (Stream.pos (Reader.buffer r)))
      /\ Stream.data (Reader.buffer (snd (Reader.skip count r)))
         = Stream.data (Reader.buffer r)
      /\ Reader.endian (snd (Reader.skip count r)) = Reader.endian r)
  /\ (forall w : Writer.t,
      let s := Writer.buffer w in
      let s' := Writer.buffer (snd (Writer.skip count w)) in
      let n := Z.to_nat count in
      fst (Writer.skip count w) = Ok tt
      /\ s' = snd (Stream.write (repeat x00 n) s)
      /\ Stream.pos s' = (Stream.pos s + n)%nat
      /\ firstn n (skipn (Stream.pos s) (Stream.data s')) = repeat x00 n
      /\ skipn (Stream.pos s + n) (Stream.data s')
         = skipn (Stream.pos s + n) (Stream.data s)
      /\ firstn (Nat.min (Stream.pos s) (length (Stream.data s))) (Stream.data s')
         = firstn (Stream.pos s) (Stream.data s)).
Proof.
  intros Hc. split; [|split].
  - intros r. repeat split.
  - intros [s e]. unfold Reader.skip, Reader.seek, Reader.tell, Reader.on_buffer.
    unfold bind, ret, Stream.tell, Stream.seek.
    cbn [Reader.buffer Reader.endian fst snd].
    destruct (Z.ltb_spec (Z.of_nat (Stream.pos s) + count) 0); [lia|].
    repeat split.
  - intros w. cbv zeta. unfold Writer.skip. rewrite Writer_zero_fill.
    cbn [fst snd Writer.buffer].
    pose proof (Stream_write_spec (repeat x00 (Z.to_nat count)) (Writer.buffer w))
      as Hs.
    cbv zeta in Hs. rewrite repeat_length in Hs.
    destruct Hs as (H1 & H2 & H3 & H4). repeat split; assumption.
Qed.

Lemma skip_asymmetry_witness :
  let w := Writer.init {| Stream.data := [x01; x02; x03; x04]; Stream.pos := 1 |}
             Little in
  fst (Writer.skip 2 w) = Ok tt
  /\ Writer.buffer (snd (Writer.skip 2 w))
     = {| Stream.data := [x01; x00; x00; x04]; Stream.pos := 3 |}.
Proof.
  assert (Hc : 0 <= 2) by lia.
  pose proof (proj2 (proj2 (skip_asymmetry 2 Hc))
                (Writer.init {| Stream.data := [x01; x02; x03; x04];
                                Stream.pos := 1 |} Little)) as H.
  cbv zeta in H. destruct H as (H1 & H2 & _).
  split; [exact H1 | exact H2].
Defined.

(** ** The cursor of a [MemoryReader] *)

Lemma unpack_ok_length (e : endian) (c : code) (buf : list byte) (v : Z) :
  unpack e c buf = Ok v -> length buf = size c.
Proof.
  unfold unpack. destruct (Nat.eqb_spec (length buf) (size c));
    [trivial | discriminate].
Qed.

(** A fixed-width read that returns has found all its bytes inside the
    buffer. *)
Lemma read_num_returns_inside (c : code) (r : MemoryReader.t) (v : Z) :
  cursor_in_bounds r ->
  fst (MemoryReader.read_num c r) = Ok v ->
  cursor_in_bounds (snd (MemoryReader.read_num c r)).
Proof.
  unfold cursor_in_bounds. intros Hr. rewrite MemoryReader_read_num_eq.
  cbn [fst snd MemoryReader.buffer MemoryReader.offset]. intros Hu.
  apply unpack_ok_length in Hu.
  pose proof (py_slice_length (MemoryReader.buffer r) (MemoryReader.offset r)
                (MemoryReader.offset r + Z.of_nat (size c))) as L.
  cbv zeta in L. rewrite Hu in L. unfold clamp_index in L.
  assert (0 < Z.of_nat (size c)) by (destruct c; reflexivity).
  destruct (Z.ltb_spec (MemoryReader.offset r) 0),
    (Z.ltb_spec (MemoryReader.offset r + Z.of_nat (size c)) 0); lia.
Qed.

(** A [read_strz] that returns has found its terminator inside the buffer and
    stops just after it. *)
Lemma read_strz_returns_inside (t : Z) (r r' : MemoryReader.t) (s : Utf8.str) :
  cursor_in_bounds r ->
  MemoryReader.read_strz t r = (Ok s, r') ->
  cursor_in_bounds r'.
Proof.
  unfold cursor_in_bounds. intros Hr.
  unfold MemoryReader.read_strz, MemoryReader.read_strz_fuel.
  unfold bind at 1. cbn [MemoryReader.tell]. unfold bind at 1.
  destruct (MemoryReader.strz_scan _ t 0 r) as [[m|e|] r1] eqn:Es;
    try discriminate.
  destruct (MemoryReader_scan_returns t _ r 0 m r1 Es (proj1 Hr))
    as (Hb & He & Hm & Ho & Hle).
  unfold bind at 1. cbn [MemoryReader.seek].
  unfold MemoryReader.read_str. unfold bind at 1. unfold bind at 1.
  cbn [MemoryReader.read MemoryReader.buffer MemoryReader.endian
         MemoryReader.offset]. unfold lift.
  destruct (Utf8.decode _) as [line|e|]; try discriminate.
  unfold MemoryReader.skip, bind, ret.
  cbn [MemoryReader.tell MemoryReader.seek snd MemoryReader.buffer
         MemoryReader.offset].
  intros [= _ <-]. cbn [MemoryReader.buffer MemoryReader.offset].
  rewrite Hb. lia.
Qed.

(** C4, as the code has it.  No operation checks the cursor against the
    buffer.  From a cursor inside the buffer, the cursor is inside the buffer
    again after [tell], after a fixed-width read or a [read_strz] that
    returns, after [read], [read_str] or [skip] that move it to a position
    inside the buffer, and after [seek] to such a position. *)
Theorem cursor_stays_in_bounds (o : reader_op) (r : MemoryReader.t) :
  cursor_in_bounds r ->
  stays_inside o r ->
  cursor_in_bounds (after o r).
Proof.
  intros Hr Hs. destruct o as [count|c|n|t|off|count|]; cbn [after stays_inside] in *.
  - exact Hs.
  - destruct Hs as [v Hv]. exact (read_num_returns_inside c r v Hr Hv).
  - unfold MemoryReader.read_str, bind, lift. cbn [MemoryReader.read].
    destruct (Utf8.decode _); exact Hs.
  - destruct Hs as [v Hv].
    destruct (MemoryReader.read_strz t r) as [res r'] eqn:E.
    cbn [fst snd] in *. subst res.
    exact (read_strz_returns_inside t r r' v Hr E).
  - exact Hs.
  - exact Hs.
  - exact Hr.
Qed.

Lemma cursor_stays_in_bounds_witness :
  cursor_in_bounds
    (after (OpReadNum fmt_H) (MemoryReader.init [x01; x02; x03] Little)).
Proof.
  apply (cursor_stays_in_bounds (OpReadNum fmt_H)
           (MemoryReader.init [x01; x02; x03] Little)).
  - unfold cursor_in_bounds. simpl. lia.
  - simpl. eexists. reflexivity.
Defined.

(** C4, as the claim has it, fails: a [seek] past the end, a fixed-width read
    that raises for lack of bytes, a [read_str] longer than what is left and a
    [skip] to before the start all leave the cursor outside the buffer. *)
Lemma cursor_leaves_bounds :
  let r := MemoryReader.init [x61; x62] Little in
  cursor_in_bounds r
  /\ ~ cursor_in_bounds (after (OpSeek 5) r)
  /\ ~ cursor_in_bounds (after (OpReadNum fmt_I) r)
  /\ ~ cursor_in_bounds (after (OpReadStr 3) r)
  /\ ~ cursor_in_bounds (after (OpSkip (-1)) r)
  /\ ~ (forall o r', cursor_in_bounds r' -> cursor_in_bounds (after o r')).
Proof.
  cbv zeta. unfold cursor_in_bounds.
  repeat split; try (simpl; lia).
  intros H.
  specialize (H (OpSeek 5) (MemoryReader.init [x61; x62] Little)).
  simpl in H. lia.
Qed.

(** ** The stream-backed pair *)

(** X22.  The round trip of the fixed-width formats through a [Writer] on an
    empty stream and a [Reader] of the same byte order on what the stream then
    holds. *)
Lemma stream_roundtrip (c : code) (e : endian) (v : Z) :
  min_value c <= v <= max_value c ->
  exists w,
    Writer.write_num c v
      (Writer.init {| Stream.data := []; Stream.pos := 0 |} e) = (Ok tt, w)
    /\ fst (Reader.read_num c
              (Reader.init {| Stream.data := Stream.data (Writer.buffer w);
                              Stream.pos := 0 |} e))
       = Ok v.
Proof.
  intros Hv. apply in_range_iff in Hv.
  pose proof (unpack_pack e c v Hv) as Hrt.
  rewrite Writer_write_num_eq. cbn [Writer.init Writer.endian Writer.buffer].
  destruct (pack e c v) as [bs| |] eqn:Hp; try discriminate.
  cbn [result_bind] in Hrt.
  pose proof (pack_length _ _ _ _ Hp) as Hlen.
  assert (Hne : bs <> []).
  { intros ->. destruct c; discriminate Hlen. }
  eexists. split; [reflexivity|].
  cbn [Writer.buffer]. rewrite (Stream_write_nonempty bs _ Hne).
  cbn [Stream.data Stream.pos firstn repeat Nat.sub app].
  rewrite skipn_nil, app_nil_r.
  rewrite Reader_read_num_eq. cbv zeta.
  cbn [fst Reader.init Reader.buffer Reader.endian Stream.data Stream.pos skipn].
  rewrite Hlen, Nat.min_id, <- Hlen, firstn_all. exact Hrt.
Qed.

(** The budget of [Reader.read_strz] is never exhausted. *)
Lemma Reader_read_strz_total (t : Z) (r : Reader.t) :
  fst (Reader.read_strz t r) <> OutOfFuel.
Proof.
  unfold Reader.read_strz, Reader.read_strz_fuel.
  unfold bind at 1. unfold Reader.tell at 1, Reader.on_buffer at 1.
  cbn [Stream.tell].
  replace {| Reader.buffer := Reader.buffer r; Reader.endian := Reader.endian r |}
    with r by (destruct r; reflexivity).
  unfold bind at 1.
  pose proof (Reader_scan_total t (S (length (Stream.data (Reader.buffer r)))) r 0)
    as Hs.
  destruct (Reader.strz_scan _ t 0 r) as [[m|e|] r'];
    cbn [fst] in *; [|discriminate|exfalso; apply Hs; [lia|reflexivity]].
  unfold bind at 1. unfold Reader.seek at 1. unfold bind at 1.
  unfold Reader.on_buffer at 1, Stream.seek.
  destruct (Z.ltb_spec (Z.of_nat (Stream.pos (Reader.buffer r))) 0); [lia|].
  unfold ret at 1.
  unfold Reader.read_str. unfold bind at 1. unfold bind at 1.
  unfold Reader.read, Reader.on_buffer at 1, Stream.read. unfold lift.
  match goal with
  | |- context [Utf8.decode ?x] =>
      pose proof (decode_total x) as Hd; destruct (Utf8.decode x) as [s|e|]
  end; [|discriminate|congruence].
  unfold bind at 1. unfold Reader.skip. unfold bind at 1.
  unfold Reader.tell, Reader.on_buffer at 1. cbn [Stream.tell].
  unfold Reader.seek. unfold bind at 1. unfold Reader.on_buffer, Stream.seek.
  cbn [Reader.buffer Stream.pos].
  match goal with
  | |- context [if ?c then _ else _] => destruct c
  end; cbn; discriminate.
Qed.
(* ================================================================== *)
(** * Further properties of the four classes *)

(** ** Fixed-width integers at any position *)

Lemma slice_of_middle {A} (pre mid post : list A) :
  py_slice (pre ++ mid ++ post) (Z.of_nat (length pre))
    (Z.of_nat (length pre) + Z.of_nat (length mid)) = mid.
Proof.
  rewrite py_slice_inside by (rewrite ?length_app; lia).
  rewrite !Nat2Z.id, (skipn_app_exact pre _ _ eq_refl).
  apply firstn_app_exact. reflexivity.
Qed.

(** X1.  A value in the range of its format, written by a [MemoryWriter]
    that already holds some bytes, is appended as [size] bytes; a
    [MemoryReader] of the same byte order whose cursor is where those bytes
    start reads the value back, whatever follows them, and stops just after
    them. *)
Theorem write_then_read_in_place (c : code) (v : Z) (w : MemoryWriter.t) :
  min_value c <= v <= max_value c ->
  exists bs,
    length bs = size c
    /\ MemoryWriter.write_num c v w
       = (Ok tt, {| MemoryWriter.endian := MemoryWriter.endian w;
                    MemoryWriter.buffer := MemoryWriter.buffer w ++ bs |})
    /\ forall post,
        MemoryReader.read_num c
          {| MemoryReader.buffer := MemoryWriter.buffer w ++ bs ++ post;
             MemoryReader.endian := MemoryWriter.endian w;
             MemoryReader.offset := Z.of_nat (length (MemoryWriter.buffer w)) |}
        = (Ok v,
           {| MemoryReader.buffer := MemoryWriter.buffer w ++ bs ++ post;
              MemoryReader.endian := MemoryWriter.endian w;
              MemoryReader.offset :=
                Z.of_nat (length (MemoryWriter.buffer w)) + Z.of_nat (size c) |}).
Proof.
  intros Hv. apply in_range_iff in Hv.
  pose proof (unpack_pack (MemoryWriter.endian w) c v Hv) as Hrt.
  rewrite MemoryWriter_write_num_eq.
  destruct (pack (MemoryWriter.endian w) c v) as [bs| |] eqn:Hp; try discriminate.
  cbn [result_bind] in Hrt.
  pose proof (pack_length _ _ _ _ Hp) as Hlen.
  exists bs. split; [exact Hlen|]. split; [reflexivity|].
  intros post. rewrite MemoryReader_read_num_eq.
  cbn [MemoryReader.buffer MemoryReader.endian MemoryReader.offset].
  rewrite <- Hlen, slice_of_middle, Hrt. reflexivity.
Qed.

Lemma write_then_read_in_place_witness :
  exists bs,
    length bs = size fmt_i
    /\ MemoryWriter.write_num fmt_i (-5)
         {| MemoryWriter.endian := Big; MemoryWriter.buffer := [x07; x08] |}
       = (Ok tt, {| MemoryWriter.endian := Big;
                    MemoryWriter.buffer := [x07; x08] ++ bs |})
    /\ forall post,
        MemoryReader.read_num fmt_i
          {| MemoryReader.buffer := [x07; x08] ++ bs ++ post;
             MemoryReader.endian := Big;
             MemoryReader.offset := Z.of_nat (length [x07; x08]) |}
        = (Ok (-5),
           {| MemoryReader.buffer := [x07; x08] ++ bs ++ post;
              MemoryReader.endian := Big;
              MemoryReader.offset :=
                Z.of_nat (length [x07; x08]) + Z.of_nat (size fmt_i) |}).
Proof.
  apply (write_then_read_in_place fmt_i (-5)
           {| MemoryWriter.endian := Big; MemoryWriter.buffer := [x07; x08] |}).
  vm_compute. split; discriminate.
Defined.

(** ** From bytes to a value and back *)

Lemma int_from_bytes_le_range (l : list byte) :
  0 <= int_from_bytes_le l < 2 ^ (8 * Z.of_nat (length l)).
Proof.
  induction l as [|b l IH].
  - cbn. lia.
  - cbn [int_from_bytes_le length].
    replace (8 * Z.of_nat (S (length l))) with (8 + 8 * Z.of_nat (length l)) by lia.
    rewrite Z.pow_add_r by lia. change (2 ^ 8) with 256.
    pose proof (Z_of_byte_range b). nia.
Qed.

Lemma int_to_from_bytes_le (l : list byte) :
  int_to_bytes_le (length l) (int_from_bytes_le l) = l.
Proof.
  induction l as [|b l IH]; [reflexivity|].
  cbn [length int_to_bytes_le int_from_bytes_le].
  pose proof (Z_of_byte_range b) as Hb.
  replace ((Z_of_byte b + 256 * int_from_bytes_le l) mod 256) with (Z_of_byte b)
    by (Z.div_mod_to_equations; lia).
  replace ((Z_of_byte b + 256 * int_from_bytes_le l) / 256)
    with (int_from_bytes_le l) by (Z.div_mod_to_equations; lia).
  rewrite byte_of_Z_of_byte, IH. reflexivity.
Qed.

(** The low bytes of a number do not see a multiple of [2 ^ (8 * n)]. *)
Lemma int_to_bytes_le_wrap (n : nat) (v : Z) :
  int_to_bytes_le n (v - 2 ^ (8 * Z.of_nat n)) = int_to_bytes_le n v.
Proof.
  revert v. induction n as [|n IH]; intros v; [reflexivity|].
  cbn [int_to_bytes_le].
  replace (8 * Z.of_nat (S n)) with (8 + 8 * Z.of_nat n) by lia.
  rewrite Z.pow_add_r by lia. change (2 ^ 8) with 256.
  set (m := 2 ^ (8 * Z.of_nat n)).
  replace (v - 256 * m) with (v + (- m) * 256) by lia.
  rewrite Z.mod_add, Z.div_add by lia.
  replace (v / 256 + - m) with (v / 256 - m) by lia.
  unfold m. rewrite IH. reflexivity.
Qed.

Lemma pack_unpack (e : endian) (c : code) (bs : list byte) (v : Z) :
  unpack e c bs = Ok v ->
  pack e c v = Ok bs /\ min_value c <= v <= max_value c.
Proof.
  unfold unpack.
  destruct (Nat.eqb_spec (length bs) (size c)) as [Hlen|]; [|discriminate].
  intros E. apply Ok_inj in E.
  pose proof (int_from_bytes_le_range (order e bs)) as Hu.
  pose proof (int_to_from_bytes_le (order e bs)) as Hb.
  rewrite length_order, Hlen in Hu, Hb. fold (bits c) in Hu.
  set (u := int_from_bytes_le (order e bs)) in *.
  assert (Hbits : 0 < bits c) by (destruct c; reflexivity).
  assert (Hp : 2 ^ bits c = 2 * 2 ^ (bits c - 1)).
  { replace (bits c) with (1 + (bits c - 1)) at 1 by lia.
    rewrite Z.pow_add_r by lia. reflexivity. }
  assert (Hrange : min_value c <= v <= max_value c).
  { unfold min_value, max_value. subst v.
    destruct (signed c); cbn [andb];
      [destruct (Z.leb_spec (2 ^ (bits c - 1)) u)|]; lia. }
  split; [|exact Hrange].
  unfold pack. apply in_range_iff in Hrange. rewrite Hrange. f_equal.
  rewrite <- (order_involutive e bs). f_equal.
  subst v. destruct (signed c && (2 ^ (bits c - 1) <=? u)).
  - unfold bits. rewrite int_to_bytes_le_wrap. exact Hb.
  - exact Hb.
Qed.

(** X2.  Whatever a fixed-width read of a [MemoryReader] returns is in the
    range of its format, and writing it with a [MemoryWriter] of the same
    byte order gives back exactly the bytes that were read. *)
Theorem read_then_write_same_bytes (c : code) (r : MemoryReader.t) (v : Z) :
  fst (MemoryReader.read_num c r) = Ok v ->
  min_value c <= v <= max_value c
  /\ MemoryWriter.write_num c v (MemoryWriter.init (MemoryReader.endian r))
     = (Ok tt,
        {| MemoryWriter.endian := MemoryReader.endian r;
           MemoryWriter.buffer :=
             py_slice (MemoryReader.buffer r) (MemoryReader.offset r)
               (MemoryReader.offset r + Z.of_nat (size c)) |}).
Proof.
  rewrite MemoryReader_read_num_eq. cbn [fst]. intros Hu.
  destruct (pack_unpack _ _ _ _ Hu) as [Hp Hr]. split; [exact Hr|].
  rewrite MemoryWriter_write_num_eq.
  cbn [MemoryWriter.init MemoryWriter.endian MemoryWriter.buffer app].
  rewrite Hp. reflexivity.
Qed.

Lemma read_then_write_same_bytes_witness :
  min_value fmt_h <= -2 <= max_value fmt_h
  /\ MemoryWriter.write_num fmt_h (-2) (MemoryWriter.init Little)
     = (Ok tt,
        {| MemoryWriter.endian := Little;
           MemoryWriter.buffer := py_slice [x00; xfe; xff; x01] 1 (1 + 2) |}).
Proof.
  apply (read_then_write_same_bytes fmt_h
           {| MemoryReader.buffer := [x00; xfe; xff; x01];
              MemoryReader.endian := Little; MemoryReader.offset := 1 |} (-2)).
  reflexivity.
Defined.

(** X3.  Bytes written for a value of a signed or unsigned format and read
    with the unsigned format of the same size give the value modulo
    [2 ^ bits]: [-1] written as [i8] reads as [255] with [read_u8]. *)
Theorem signed_write_unsigned_read (c : code) (e : endian) (v : Z) :
  min_value c <= v <= max_value c ->
  exists w,
    MemoryWriter.write_num c v (MemoryWriter.init e) = (Ok tt, w)
    /\ fst (MemoryReader.read_num (unsigned_code c)
              (MemoryReader.init (MemoryWriter.buffer w) e))
       = Ok (v mod 2 ^ bits c).
Proof.
  intros Hv. apply in_range_iff in Hv.
  rewrite MemoryWriter_write_num_eq.
  cbn [MemoryWriter.init MemoryWriter.endian MemoryWriter.buffer app].
  unfold pack. rewrite Hv.
  eexists. split; [reflexivity|].
  cbn [MemoryWriter.buffer]. rewrite MemoryReader_read_num_eq.
  cbn [fst MemoryReader.init MemoryReader.buffer MemoryReader.endian
       MemoryReader.offset].
  assert (Hsz : size (unsigned_code c) = size c) by (destruct c; reflexivity).
  assert (Hsg : signed (unsigned_code c) = false) by (destruct c; reflexivity).
  rewrite Hsz.
  pose proof (slice_of_middle [] (order e (int_to_bytes_le (size c) v)) []) as Hs.
  cbn [app length Z.of_nat] in Hs.
  rewrite app_nil_r, length_order, length_int_to_bytes_le in Hs.
  rewrite Hs. unfold unpack.
  rewrite length_order, length_int_to_bytes_le, Hsz, Nat.eqb_refl, Hsg.
  cbn [andb]. rewrite order_involutive, int_from_to_bytes_le. reflexivity.
Qed.

Lemma signed_write_unsigned_read_witness :
  exists w,
    MemoryWriter.write_num fmt_b (-1) (MemoryWriter.init Little) = (Ok tt, w)
    /\ fst (MemoryReader.read_num (unsigned_code fmt_b)
              (MemoryReader.init (MemoryWriter.buffer w) Little))
       = Ok ((-1) mod 2 ^ bits fmt_b).
Proof.
  apply (signed_write_unsigned_read fmt_b Little (-1)).
  vm_compute. split; discriminate.
Defined.

(** ** The cursor after a read that raises, and negative cursors *)

(** X4.  A fixed-width read that finds too few bytes raises, and still moves
    the cursor: a [MemoryReader] adds the full width, so the cursor ends
    beyond the buffer; a [Reader] stops at the end of the data (or stays
    where it was beyond it). *)
Theorem failed_read_moves_cursor (c : code) :
  (forall r : MemoryReader.t,
      Z.of_nat (length (MemoryReader.buffer r)) - MemoryReader.offset r
      < Z.of_nat (size c) ->
      MemoryReader.read_num c r
      = (Raise StructError,
         {| MemoryReader.buffer := MemoryReader.buffer r;
            MemoryReader.endian := MemoryReader.endian r;
            MemoryReader.offset := MemoryReader.offset r + Z.of_nat (size c) |}))
  /\ (forall r : Reader.t,
      Z.of_nat (length (Stream.data (Reader.buffer r)))
      - Z.of_nat (Stream.pos (Reader.buffer r)) < Z.of_nat (size c) ->
      Reader.read_num c r
      = (Raise StructError,
         {| Reader.buffer :=
              {| Stream.data := Stream.data (Reader.buffer r);
                 Stream.pos := Nat.max (Stream.pos (Reader.buffer r))
                                 (length (Stream.data (Reader.buffer r))) |};
            Reader.endian := Reader.endian r |})).
Proof.
  assert (Hs : 0 < Z.of_nat (size c)) by (destruct c; reflexivity).
  split; intros r Hr.
  - rewrite MemoryReader_read_num_eq. f_equal.
    apply unpack_wrong_size.
    pose proof (py_slice_short (MemoryReader.buffer r) (MemoryReader.offset r)
                  (Z.of_nat (size c)) Hs Hr).
    lia.
  - rewrite Reader_read_num_eq. cbv zeta. f_equal.
    + apply unpack_wrong_size. rewrite length_firstn, length_skipn. lia.
    + do 2 f_equal. rewrite length_skipn. lia.
Qed.

Lemma failed_read_moves_cursor_witness :
  MemoryReader.read_num fmt_I
    {| MemoryReader.buffer := [x01; x02; x03]; MemoryReader.endian := Little;
       MemoryReader.offset := 1 |}
  = (Raise StructError,
     {| MemoryReader.buffer := [x01; x02; x03]; MemoryReader.endian := Little;
        MemoryReader.offset := 1 + Z.of_nat (size fmt_I) |})
  /\ Reader.read_num fmt_I
       {| Reader.buffer := {| Stream.data := [x01; x02; x03]; Stream.pos := 1 |};
          Reader.endian := Little |}
     = (Raise StructError,
        {| Reader.buffer := {| Stream.data := [x01; x02; x03];
                               Stream.pos := Nat.max 1 (length [x01; x02; x03]) |};
           Reader.endian := Little |}).
Proof.
  split.
  - apply (proj1 (failed_read_moves_cursor fmt_I)
             {| MemoryReader.buffer := [x01; x02; x03];
                MemoryReader.endian := Little; MemoryReader.offset := 1 |}).
    simpl. lia.
  - apply (proj2 (failed_read_moves_cursor fmt_I)
             {| Reader.buffer := {| Stream.data := [x01; x02; x03];
                                    Stream.pos := 1 |};
                Reader.endian := Little |}).
    simpl. lia.
Defined.

(** X5.  A negative cursor of a [MemoryReader] counts from the end of the
    buffer, as slicing does.  A read whose bytes would reach index 0 or
    start before the buffer raises; otherwise it returns what the read at
    [length + cursor] returns, and the cursor stays negative. *)
Theorem negative_cursor_reads (c : code) (r : MemoryReader.t) :
  MemoryReader.offset r < 0 ->
  let len := Z.of_nat (length (MemoryReader.buffer r)) in
  let o := MemoryReader.offset r in
  let n := Z.of_nat (size c) in
  (0 <= o + n \/ o < - len ->
   fst (MemoryReader.read_num c r) = Raise StructError)
  /\ (- len <= o /\ o + n < 0 ->
      fst (MemoryReader.read_num c r)
      = fst (MemoryReader.read_num c
               {| MemoryReader.buffer := MemoryReader.buffer r;
                  MemoryReader.endian := MemoryReader.endian r;
                  MemoryReader.offset := len + o |})
      /\ MemoryReader.offset (snd (MemoryReader.read_num c r)) = o + n).
Proof.
  intros Ho. cbv zeta.
  assert (Hs : 0 < Z.of_nat (size c)) by (destruct c; reflexivity).
  rewrite !MemoryReader_read_num_eq.
  cbn [fst snd MemoryReader.buffer MemoryReader.endian MemoryReader.offset].
  split.
  - intros Hw. apply unpack_wrong_size.
    pose proof (py_slice_length (MemoryReader.buffer r) (MemoryReader.offset r)
                  (MemoryReader.offset r + Z.of_nat (size c))) as L.
    cbv zeta in L. unfold clamp_index in L.
    destruct (Z.ltb_spec (MemoryReader.offset r) 0),
      (Z.ltb_spec (MemoryReader.offset r + Z.of_nat (size c)) 0); lia.
  - intros [Hlo Hhi]. split; [|reflexivity]. f_equal.
    unfold py_slice, clamp_index.
    destruct (Z.ltb_spec (MemoryReader.offset r) 0); [|lia].
    destruct (Z.ltb_spec (MemoryReader.offset r + Z.of_nat (size c)) 0); [|lia].
    destruct (Z.ltb_spec (Z.of_nat (length (MemoryReader.buffer r))
                          + MemoryReader.offset r) 0); [lia|].
    destruct (Z.ltb_spec (Z.of_nat (length (MemoryReader.buffer r))
                          + MemoryReader.offset r + Z.of_nat (size c)) 0); [lia|].
    f_equal; [|f_equal]; lia.
Qed.

Lemma negative_cursor_reads_witness :
  let r := {| MemoryReader.buffer := [x0a; x0b; x0c; x0d];
              MemoryReader.endian := Little; MemoryReader.offset := -1 |} in
  let r' := {| MemoryReader.buffer := [x0a; x0b; x0c; x0d];
               MemoryReader.endian := Little; MemoryReader.offset := -3 |} in
  fst (MemoryReader.read_num fmt_B r) = Raise StructError
  /\ fst (MemoryReader.read_num fmt_H r') = Ok 3083
  /\ MemoryReader.offset (snd (MemoryReader.read_num fmt_H r')) = -1.
Proof.
  cbv zeta. split.
  - apply (negative_cursor_reads fmt_B
             {| MemoryReader.buffer := [x0a; x0b; x0c; x0d];
                MemoryReader.endian := Little; MemoryReader.offset := -1 |}).
    + simpl. lia.
    + left. simpl. lia.
  - assert (Hneg : MemoryReader.offset
                     {| MemoryReader.buffer := [x0a; x0b; x0c; x0d];
                        MemoryReader.endian := Little;
                        MemoryReader.offset := -3 |} < 0) by (simpl; lia).
    destruct (proj2 (negative_cursor_reads fmt_H _ Hneg)) as [H1 H2].
    + simpl. lia.
    + split; [rewrite H1; reflexivity | rewrite H2; reflexivity].
Defined.

(** ** Strings of a given length *)

Lemma decode_raises_only (bs : list byte) (e : exn) :
  Utf8.decode bs = Raise e -> e = UnicodeDecodeError.
Proof.
  assert (Hmap : forall (f : Utf8.str -> Utf8.str) x,
             (x = Raise e -> e = UnicodeDecodeError) ->
             result_map f x = Raise e -> e = UnicodeDecodeError).
  { intros f [a|e'|]; cbn; intros H E; try discriminate. apply H. exact E. }
  remember (length bs) as n eqn:Hn. revert bs Hn.
  induction n as [n IH] using lt_wf_ind. intros bs Hn.
  destruct bs as [|b0 r0]; [discriminate|].
  rewrite decode_cons. cbv zeta.
  repeat match goal with
         | |- (if ?c then _ else _) = _ -> _ => destruct c
         | |- match ?l with [] => _ | _ :: _ => _ end = _ -> _ => destruct l
         | |- Raise _ = _ -> _ => intros E; injection E as <-; reflexivity
         | |- result_map _ _ = _ -> _ =>
             apply Hmap; eapply IH; [|reflexivity]; subst n; cbn [length]; lia
         end.
Qed.

(** X6.  [write_str] appends the UTF-8 bytes of the string and nothing else;
    [read_str] with the number of those bytes, from where they start, returns
    the string and stops just after them, whatever surrounds them. *)
Theorem write_str_then_read_str (s : Utf8.str) (bs : list byte)
        (w : MemoryWriter.t) :
  Utf8.encode s = Ok bs ->
  MemoryWriter.write_str s w
  = (Ok tt, {| MemoryWriter.endian := MemoryWriter.endian w;
               MemoryWriter.buffer := MemoryWriter.buffer w ++ bs |})
  /\ forall post e,
      MemoryReader.read_str (Z.of_nat (length bs))
        {| MemoryReader.buffer := MemoryWriter.buffer w ++ bs ++ post;
           MemoryReader.endian := e;
           MemoryReader.offset := Z.of_nat (length (MemoryWriter.buffer w)) |}
      = (Ok s,
         {| MemoryReader.buffer := MemoryWriter.buffer w ++ bs ++ post;
            MemoryReader.endian := e;
            MemoryReader.offset :=
              Z.of_nat (length (MemoryWriter.buffer w)) + Z.of_nat (length bs) |}).
Proof.
  intros Henc. split.
  - unfold MemoryWriter.write_str, bind, lift. rewrite Henc. reflexivity.
  - intros post e. unfold MemoryReader.read_str, bind, lift.
    cbn [MemoryReader.read MemoryReader.buffer MemoryReader.endian
           MemoryReader.offset].
    rewrite slice_of_middle, (decode_encode s bs Henc). reflexivity.
Qed.

Lemma write_str_then_read_str_witness :
  MemoryWriter.write_str [233; 97] (MemoryWriter.init Little)
  = (Ok tt, {| MemoryWriter.endian := Little;
               MemoryWriter.buffer := [] ++ [xc3; xa9; x61] |})
  /\ forall post e,
      MemoryReader.read_str (Z.of_nat (length [xc3; xa9; x61]))
        {| MemoryReader.buffer := [] ++ [xc3; xa9; x61] ++ post;
           MemoryReader.endian := e;
           MemoryReader.offset := Z.of_nat (@length byte []) |}
      = (Ok [233; 97],
         {| MemoryReader.buffer := [] ++ [xc3; xa9; x61] ++ post;
            MemoryReader.endian := e;
            MemoryReader.offset :=
              Z.of_nat (@length byte []) + Z.of_nat (length [xc3; xa9; x61]) |}).
Proof.
  apply (write_str_then_read_str [233; 97] [xc3; xa9; x61]
           (MemoryWriter.init Little)).
  reflexivity.
Defined.

(** X7.  [read_str] does not notice the end of the buffer: asked for more
    bytes than are left, it decodes the bytes that are left (none, past the
    end), never raises [struct.error], and moves the cursor by the full
    count, beyond the buffer. *)
Theorem read_str_truncates (count : Z) (r : MemoryReader.t) :
  0 <= MemoryReader.offset r ->
  Z.of_nat (length (MemoryReader.buffer r)) <= MemoryReader.offset r + count ->
  MemoryReader.read_str count r
  = (Utf8.decode (skipn (Z.to_nat (MemoryReader.offset r)) (MemoryReader.buffer r)),
     {| MemoryReader.buffer := MemoryReader.buffer r;
        MemoryReader.endian := MemoryReader.endian r;
        MemoryReader.offset := MemoryReader.offset r + count |})
  /\ fst (MemoryReader.read_str count r) <> Raise StructError.
Proof.
  intros Ho Hc.
  assert (E : MemoryReader.read_str count r
              = (Utf8.decode (skipn (Z.to_nat (MemoryReader.offset r))
                                (MemoryReader.buffer r)),
                 {| MemoryReader.buffer := MemoryReader.buffer r;
                    MemoryReader.endian := MemoryReader.endian r;
                    MemoryReader.offset := MemoryReader.offset r + count |})).
  { unfold MemoryReader.read_str, bind, lift. cbn [MemoryReader.read].
    rewrite py_slice_cut by assumption.
    destruct (Utf8.decode _); reflexivity. }
  split; [exact E|]. rewrite E. cbn [fst]. intros H.
  apply decode_raises_only in H. discriminate.
Qed.

Lemma read_str_truncates_witness :
  MemoryReader.read_str 10
    {| MemoryReader.buffer := [x61; x62; x63]; MemoryReader.endian := Little;
       MemoryReader.offset := 1 |}
  = (Ok [98; 99],
     {| MemoryReader.buffer := [x61; x62; x63]; MemoryReader.endian := Little;
        MemoryReader.offset := 11 |}).
Proof.
  apply (proj1 (read_str_truncates 10
                  {| MemoryReader.buffer := [x61; x62; x63];
                     MemoryReader.endian := Little;
                     MemoryReader.offset := 1 |}
                  ltac:(simpl; lia) ltac:(simpl; lia))).
Defined.

(** ** Terminated strings *)

(** The three steps of [read_strz] once the scan has found the terminator. *)
Lemma MemoryReader_read_strz_span (t : Z) (r : MemoryReader.t)
      (mid : list byte) (tb : byte) (post : list byte) :
  0 <= MemoryReader.offset r ->
  skipn (Z.to_nat (MemoryReader.offset r)) (MemoryReader.buffer r)
  = mid ++ tb :: post ->
  Forall (fun b => i8 b <> t) mid ->
  i8 tb = t ->
  MemoryReader.read_strz t r
  = match Utf8.decode mid with
    | Ok s =>
        (Ok s,
         {| MemoryReader.buffer := MemoryReader.buffer r;
            MemoryReader.endian := MemoryReader.endian r;
            MemoryReader.offset :=
              MemoryReader.offset r + Z.of_nat (length mid) + 1 |})
    | Raise e =>
        (Raise e,
         {| MemoryReader.buffer := MemoryReader.buffer r;
            MemoryReader.endian := MemoryReader.endian r;
            MemoryReader.offset := MemoryReader.offset r + Z.of_nat (length mid) |})
    | OutOfFuel =>
        (OutOfFuel,
         {| MemoryReader.buffer := MemoryReader.buffer r;
            MemoryReader.endian := MemoryReader.endian r;
            MemoryReader.offset := MemoryReader.offset r + Z.of_nat (length mid) |})
    end.
Proof.
  intros Ho E Hmid Htb.
  assert (Hlen : (Z.to_nat (MemoryReader.offset r) + length mid
                  < length (MemoryReader.buffer r))%nat).
  { pose proof (f_equal (@length byte) E) as L.
    rewrite length_skipn, length_app in L. cbn [length] in L. lia. }
  unfold MemoryReader.read_strz, MemoryReader.read_strz_fuel.
  unfold bind at 1. cbn [MemoryReader.tell]. unfold bind at 1.
  rewrite (MemoryReader_scan_finds t mid _ r 0 tb post Ho E Hmid Htb) by lia.
  unfold bind at 1. cbn [snd MemoryReader.read MemoryReader.seek
                           MemoryReader.buffer MemoryReader.endian].
  unfold MemoryReader.read_str. unfold bind at 1. unfold bind at 1.
  cbn [MemoryReader.read MemoryReader.buffer MemoryReader.endian
         MemoryReader.offset].
  rewrite py_slice_inside; [|lia..].
  replace (Z.to_nat (0 + Z.of_nat (length mid))) with (length mid) by lia.
  rewrite E, (firstn_app_exact mid _ _ eq_refl).
  unfold lift. destruct (Utf8.decode mid); reflexivity.
Qed.

(** X8.  [read_strz] stops at the first byte whose value as a signed 8-bit
    integer is the terminator: it returns the bytes before it decoded as
    UTF-8 and leaves the cursor just after it.  A terminator from -128 to -1
    therefore stands for the byte [terminator + 256]. *)
Theorem read_strz_first_match (t : Z) (r : MemoryReader.t)
        (mid : list byte) (tb : byte) (post : list byte) (s : Utf8.str) :
  0 <= MemoryReader.offset r ->
  skipn (Z.to_nat (MemoryReader.offset r)) (MemoryReader.buffer r)
  = mid ++ tb :: post ->
  Forall (fun b => i8 b <> t) mid ->
  i8 tb = t ->
  Utf8.decode mid = Ok s ->
  MemoryReader.read_strz t r
  = (Ok s,
     {| MemoryReader.buffer := MemoryReader.buffer r;
        MemoryReader.endian := MemoryReader.endian r;
        MemoryReader.offset :=
          MemoryReader.offset r + Z.of_nat (length mid) + 1 |}).
Proof.
  intros Ho E Hmid Htb Hdec.
  rewrite (MemoryReader_read_strz_span t r mid tb post Ho E Hmid Htb), Hdec.
  reflexivity.
Qed.

Lemma read_strz_first_match_witness :
  MemoryReader.read_strz (-1)
    {| MemoryReader.buffer := [x00; x61; x00; x62; xff; x63];
       MemoryReader.endian := Little; MemoryReader.offset := 1 |}
  = (Ok [97; 0; 98],
     {| MemoryReader.buffer := [x00; x61; x00; x62; xff; x63];
        MemoryReader.endian := Little;
        MemoryReader.offset := 1 + Z.of_nat (length [x61; x00; x62]) + 1 |}).
Proof.
  apply (read_strz_first_match (-1)
           {| MemoryReader.buffer := [x00; x61; x00; x62; xff; x63];
              MemoryReader.endian := Little; MemoryReader.offset := 1 |}
           [x61; x00; x62] xff [x63] [97; 0; 98]).
  - simpl. lia.
  - reflexivity.
  - repeat constructor; vm_compute; discriminate.
  - reflexivity.
  - reflexivity.
Defined.

(** X9.  When the bytes before the terminator are not UTF-8, [read_strz]
    raises [UnicodeDecodeError] and leaves the cursor on the terminator, not
    after it and not where it started. *)
Theorem read_strz_undecodable (t : Z) (r : MemoryReader.t)
        (mid : list byte) (tb : byte) (post : list byte) (e : exn) :
  0 <= MemoryReader.offset r ->
  skipn (Z.to_nat (MemoryReader.offset r)) (MemoryReader.buffer r)
  = mid ++ tb :: post ->
  Forall (fun b => i8 b <> t) mid ->
  i8 tb = t ->
  Utf8.decode mid = Raise e ->
  e = UnicodeDecodeError
  /\ MemoryReader.read_strz t r
     = (Raise UnicodeDecodeError,
        {| MemoryReader.buffer := MemoryReader.buffer r;
           MemoryReader.endian := MemoryReader.endian r;
           MemoryReader.offset :=
             MemoryReader.offset r + Z.of_nat (length mid) |}).
Proof.
  intros Ho E Hmid Htb Hdec.
  pose proof (decode_raises_only mid e Hdec) as He. split; [exact He|].
  rewrite (MemoryReader_read_strz_span t r mid tb post Ho E Hmid Htb), Hdec, He.
  reflexivity.
Qed.

Lemma read_strz_undecodable_witness :
  UnicodeDecodeError = UnicodeDecodeError
  /\ MemoryReader.read_strz 0 (MemoryReader.init [x61; xc3; x00; x62] Little)
     = (Raise UnicodeDecodeError,
        {| MemoryReader.buffer := [x61; xc3; x00; x62];
           MemoryReader.endian := Little;
           MemoryReader.offset := 0 + Z.of_nat (length [x61; xc3]) |}).
Proof.
  apply (read_strz_undecodable 0 (MemoryReader.init [x61; xc3; x00; x62] Little)
           [x61; xc3] x00 [x62] UnicodeDecodeError).
  - simpl. lia.
  - reflexivity.
  - repeat constructor; vm_compute; discriminate.
  - reflexivity.
  - reflexivity.
Defined.

(** ** The cursor after a scan that finds no terminator *)

Lemma MemoryReader_scan_runs_out (t : Z) :
  forall fuel r n,
    0 <= MemoryReader.offset r ->
    Forall (fun b => i8 b <> t)
      (skipn (Z.to_nat (MemoryReader.offset r)) (MemoryReader.buffer r)) ->
    Z.max 0 (Z.of_nat (length (MemoryReader.buffer r)) - MemoryReader.offset r)
    < Z.of_nat fuel ->
    MemoryReader.strz_scan fuel t n r
    = (Raise StructError,
       {| MemoryReader.buffer := MemoryReader.buffer r;
          MemoryReader.endian := MemoryReader.endian r;
          MemoryReader.offset :=
            Z.max (MemoryReader.offset r)
              (Z.of_nat (length (MemoryReader.buffer r))) + 1 |}).
Proof.
  induction fuel as [|fuel IH]; intros r n Ho Hall Hf; [lia|].
  cbn [MemoryReader.strz_scan]. unfold bind at 1.
  rewrite MemoryReader_read_i8_eq.
  destruct (skipn (Z.to_nat (MemoryReader.offset r)) (MemoryReader.buffer r))
    as [|x rest] eqn:Es.
  - apply (f_equal (@length byte)) in Es. rewrite length_skipn in Es.
    cbn [length] in Es.
    rewrite py_slice_one_end by lia.
    cbn [snd MemoryReader.read]. do 2 f_equal. lia.
  - assert (Hlt : MemoryReader.offset r
                  < Z.of_nat (length (MemoryReader.buffer r))).
    { apply (f_equal (@length byte)) in Es. rewrite length_skipn in Es.
      cbn [length] in Es. lia. }
    rewrite (py_slice_one _ _ _ _ Ho Es).
    inversion Hall as [|? ? Hb Hrest]; subst.
    apply Z.eqb_neq in Hb. rewrite Hb.
    rewrite IH;
      cbn [snd MemoryReader.read MemoryReader.buffer MemoryReader.endian
             MemoryReader.offset]; try lia.
    + do 2 f_equal. lia.
    + replace (Z.to_nat (MemoryReader.offset r + 1))
        with (S (Z.to_nat (MemoryReader.offset r))) by lia.
      rewrite (skipn_succ _ _ _ _ Es). exact Hrest.
Qed.

Lemma Reader_scan_runs_out (t : Z) :
  forall fuel r n,
    Forall (fun b => i8 b <> t)
      (skipn (Stream.pos (Reader.buffer r)) (Stream.data (Reader.buffer r))) ->
    (length (Stream.data (Reader.buffer r)) - Stream.pos (Reader.buffer r)
     < fuel)%nat ->
    Reader.strz_scan fuel t n r
    = (Raise StructError,
       {| Reader.buffer :=
            {| Stream.data := Stream.data (Reader.buffer r);
               Stream.pos := Nat.max (Stream.pos (Reader.buffer r))
                               (length (Stream.data (Reader.buffer r))) |};
          Reader.endian := Reader.endian r |}).
Proof.
  induction fuel as [|fuel IH]; intros r n Hall Hf; [lia|].
  cbn [Reader.strz_scan]. unfold bind at 1. rewrite Reader_read_i8_eq.
  destruct (skipn _ _) as [|b rest] eqn:E.
  - apply (f_equal (@length byte)) in E. rewrite length_skipn in E.
    cbn [length] in E. do 3 f_equal. lia.
  - assert (Hlen : (Stream.pos (Reader.buffer r)
                    < length (Stream.data (Reader.buffer r)))%nat).
    { apply (f_equal (@length byte)) in E. rewrite length_skipn in E.
      cbn [length] in E. lia. }
    inversion Hall as [|? ? Hb Hrest]; subst.
    apply Z.eqb_neq in Hb. rewrite Hb.
    rewrite IH; cbn [Reader.buffer Reader.endian Stream.data Stream.pos].
    + do 3 f_equal. lia.
    + rewrite Nat.add_1_r, (skipn_succ _ _ _ _ E). exact Hrest.
    + lia.
Qed.

(** X10.  When no byte from the cursor on reads as the terminator,
    [read_strz] raises [struct.error] and does not put the cursor back: a
    [MemoryReader] is left one past the end of its buffer (one past the
    cursor it started from, if that was beyond the end), a [Reader] at the end
    of its data. *)
Theorem read_strz_failure_cursor (t : Z) :
  (forall r : MemoryReader.t,
      0 <= MemoryReader.offset r ->
      Forall (fun b => i8 b <> t)
        (skipn (Z.to_nat (MemoryReader.offset r)) (MemoryReader.buffer r)) ->
      MemoryReader.read_strz t r
      = (Raise StructError,
         {| MemoryReader.buffer := MemoryReader.buffer r;
            MemoryReader.endian := MemoryReader.endian r;
            MemoryReader.offset :=
              Z.max (MemoryReader.offset r)
                (Z.of_nat (length (MemoryReader.buffer r))) + 1 |}))
  /\ (forall r : Reader.t,
      Forall (fun b => i8 b <> t)
        (skipn (Stream.pos (Reader.buffer r)) (Stream.data (Reader.buffer r))) ->
      Reader.read_strz t r
      = (Raise StructError,
         {| Reader.buffer :=
              {| Stream.data := Stream.data (Reader.buffer r);
                 Stream.pos := Nat.max (Stream.pos (Reader.buffer r))
                                 (length (Stream.data (Reader.buffer r))) |};
            Reader.endian := Reader.endian r |})).
Proof.
  split.
  - intros r Ho Hall.
    unfold MemoryReader.read_strz, MemoryReader.read_strz_fuel.
    unfold bind at 1. cbn [MemoryReader.tell]. unfold bind at 1.
    rewrite (MemoryReader_scan_runs_out t _ r 0 Ho Hall) by lia.
    reflexivity.
  - intros r Hall.
    unfold Reader.read_strz, Reader.read_strz_fuel.
    unfold bind at 1. unfold Reader.tell, Reader.on_buffer. cbn [Stream.tell].
    replace {| Reader.buffer := Reader.buffer r; Reader.endian := Reader.endian r |}
      with r by (destruct r; reflexivity).
    unfold bind at 1.
    rewrite (Reader_scan_runs_out t _ r 0 Hall) by lia.
    reflexivity.
Qed.

Lemma read_strz_failure_cursor_witness :
  MemoryReader.read_strz 0
    {| MemoryReader.buffer := [x61; x62; x63]; MemoryReader.endian := Little;
       MemoryReader.offset := 1 |}
  = (Raise StructError,
     {| MemoryReader.buffer := [x61; x62; x63]; MemoryReader.endian := Little;
        MemoryReader.offset := Z.max 1 (Z.of_nat (length [x61; x62; x63])) + 1 |})
  /\ Reader.read_strz 0
       {| Reader.buffer := {| Stream.data := [x61; x62; x63]; Stream.pos := 1 |};
          Reader.endian := Little |}
     = (Raise StructError,
        {| Reader.buffer :=
             {| Stream.data := [x61; x62; x63];
                Stream.pos := Nat.max 1 (length [x61; x62; x63]) |};
           Reader.endian := Little |}).
Proof.
  split.
  - apply (proj1 (read_strz_failure_cursor 0)
             {| MemoryReader.buffer := [x61; x62; x63];
                MemoryReader.endian := Little; MemoryReader.offset := 1 |}).
    + simpl. lia.
    + repeat constructor; vm_compute; discriminate.
  - apply (proj2 (read_strz_failure_cursor 0)
             {| Reader.buffer := {| Stream.data := [x61; x62; x63];
                                    Stream.pos := 1 |};
                Reader.endian := Little |}).
    repeat constructor; vm_compute; discriminate.
Defined.

(** ** Terminated strings on a stream *)

Lemma Reader_scan_finds (t : Z) :
  forall (mid : list byte) fuel r n tb post,
    skipn (Stream.pos (Reader.buffer r)) (Stream.data (Reader.buffer r))
    = mid ++ tb :: post ->
    Forall (fun b => i8 b <> t) mid ->
    i8 tb = t ->
    (length mid < fuel)%nat ->
    Reader.strz_scan fuel t n r
    = (Ok (n + Z.of_nat (length mid)),
       {| Reader.buffer :=
            {| Stream.data := Stream.data (Reader.buffer r);
               Stream.pos := (Stream.pos (Reader.buffer r) + length mid + 1)%nat |};
          Reader.endian := Reader.endian r |}).
Proof.
  induction mid as [|b mid IH]; intros fuel r n tb post E Hmid Htb Hf;
    (destruct fuel as [|fuel]; [cbn [length] in Hf; lia|]);
    cbn [Reader.strz_scan]; unfold bind at 1;
    rewrite Reader_read_i8_eq; cbn [app] in E; rewrite E.
  - apply Z.eqb_eq in Htb. rewrite Htb. unfold ret.
    cbn [length Z.of_nat]. rewrite Z.add_0_r, Nat.add_0_r. reflexivity.
  - pose proof (Forall_inv Hmid) as Hb. cbv beta in Hb.
    pose proof (Forall_inv_tail Hmid) as Hmid'.
    apply Z.eqb_neq in Hb. rewrite Hb.
    rewrite (IH fuel _ (n + 1) tb post);
      cbn [Reader.buffer Reader.endian Stream.data Stream.pos];
      try assumption.
    + f_equal; [f_equal; cbn [length]; lia|].
      do 2 f_equal. cbn [length]. lia.
    + rewrite Nat.add_1_r. exact (skipn_succ _ _ _ _ E).
    + cbn [length] in Hf. lia.
Qed.

(** The steps of [Reader.read_strz] once the scan has found the terminator. *)
Lemma Reader_read_strz_found (t : Z) (r : Reader.t)
        (mid : list byte) (tb : byte) (post : list byte) (s : Utf8.str) :
  skipn (Stream.pos (Reader.buffer r)) (Stream.data (Reader.buffer r))
  = mid ++ tb :: post ->
  Forall (fun b => i8 b <> t) mid ->
  i8 tb = t ->
  Utf8.decode mid = Ok s ->
  Reader.read_strz t r
  = (Ok s,
     {| Reader.buffer :=
          {| Stream.data := Stream.data (Reader.buffer r);
             Stream.pos := (Stream.pos (Reader.buffer r) + length mid + 1)%nat |};
        Reader.endian := Reader.endian r |}).
Proof.
  intros E Hmid Htb Hdec.
  assert (Hlen : (Stream.pos (Reader.buffer r) + length mid
                  < length (Stream.data (Reader.buffer r)))%nat).
  { pose proof (f_equal (@length byte) E) as L.
    rewrite length_skipn, length_app in L. cbn [length] in L. lia. }
  destruct r as [[d p] e].
  cbn [Reader.buffer Reader.endian Stream.data Stream.pos] in *.
  unfold Reader.read_strz, Reader.read_strz_fuel.
  unfold bind at 1. unfold Reader.tell at 1, Reader.on_buffer at 1.
  cbn [Stream.tell Reader.buffer Reader.endian Stream.data Stream.pos].
  unfold bind at 1.
  rewrite (Reader_scan_finds t mid _
             {| Reader.buffer := {| Stream.data := d; Stream.pos := p |};
                Reader.endian := e |} 0 tb post E Hmid Htb) by lia.
  cbn [Reader.buffer Reader.endian Stream.data Stream.pos].
  unfold bind at 1. unfold Reader.seek at 1. unfold bind at 1.
  unfold Reader.on_buffer at 1, Stream.seek.
  destruct (Z.ltb_spec (Z.of_nat p) 0); [lia|].
  unfold ret at 1. rewrite Nat2Z.id.
  cbn [Reader.buffer Reader.endian Stream.data Stream.pos].
  unfold Reader.read_str. unfold bind at 1. unfold bind at 1.
  unfold Reader.read, Reader.on_buffer at 1, Stream.read.
  cbn [Reader.buffer Reader.endian Stream.data Stream.pos].
  destruct (Z.ltb_spec (0 + Z.of_nat (length mid)) 0); [lia|].
  rewrite E.
  replace (Nat.min (Z.to_nat (0 + Z.of_nat (length mid)))
             (length (mid ++ tb :: post)))
    with (length mid) by (rewrite length_app; lia).
  rewrite (firstn_app_exact mid _ _ eq_refl).
  unfold lift. rewrite Hdec.
  unfold bind at 1. unfold Reader.skip. unfold bind at 1.
  unfold Reader.tell, Reader.on_buffer at 1.
  cbn [Stream.tell Reader.buffer Reader.endian Stream.data Stream.pos].
  unfold Reader.seek. unfold bind at 1. unfold Reader.on_buffer, Stream.seek.
  cbn [Reader.buffer Reader.endian Stream.data Stream.pos].
  destruct (Z.ltb_spec (Z.of_nat (p + length mid) + 1) 0); [lia|].
  unfold ret, bind. do 4 f_equal. lia.
Qed.

(** X11.  [read_strz] of a [Reader] on a stream: it returns the bytes before
    the first byte that reads as the terminator, decoded, and leaves the
    stream just after that byte; the data of the stream is untouched. *)
Theorem stream_read_strz_finds (t : Z) (r : Reader.t)
        (mid : list byte) (tb : byte) (post : list byte) (s : Utf8.str) :
  skipn (Stream.pos (Reader.buffer r)) (Stream.data (Reader.buffer r))
  = mid ++ tb :: post ->
  Forall (fun b => i8 b <> t) mid ->
  i8 tb = t ->
  Utf8.decode mid = Ok s ->
  Reader.read_strz t r
  = (Ok s,
     {| Reader.buffer :=
          {| Stream.data := Stream.data (Reader.buffer r);
             Stream.pos := (Stream.pos (Reader.buffer r) + length mid + 1)%nat |};
        Reader.endian := Reader.endian r |}).
Proof.
  intros E Hmid Htb Hdec.
  exact (Reader_read_strz_found t r mid tb post s E Hmid Htb Hdec).
Qed.

Lemma stream_read_strz_finds_witness :
  Reader.read_strz 0
    {| Reader.buffer := {| Stream.data := [x07; x68; x69; x00; x21];
                           Stream.pos := 1 |};
       Reader.endian := Big |}
  = (Ok [104; 105],
     {| Reader.buffer := {| Stream.data := [x07; x68; x69; x00; x21];
                            Stream.pos := (1 + length [x68; x69] + 1)%nat |};
        Reader.endian := Big |}).
Proof.
  apply (stream_read_strz_finds 0
           {| Reader.buffer := {| Stream.data := [x07; x68; x69; x00; x21];
                                  Stream.pos := 1 |};
              Reader.endian := Big |}
           [x68; x69] x00 [x21] [104; 105]).
  - reflexivity.
  - repeat constructor; vm_compute; discriminate.
  - reflexivity.
  - reflexivity.
Defined.

Lemma Writer_write_strz_eq (s : Utf8.str) (bs : list byte) (w : Writer.t) :
  Utf8.encode s = Ok bs ->
  Writer.write_strz s w
  = (Ok tt,
     {| Writer.buffer := snd (Stream.write (bs ++ [x00]) (Writer.buffer w));
        Writer.endian := Writer.endian w |}).
Proof.
  intros E. unfold Writer.write_strz. unfold bind at 1. unfold lift at 1.
  rewrite E. unfold bind at 1.
  assert (Hw : Writer.write bs w
               = (Ok tt, {| Writer.buffer := snd (Stream.write bs (Writer.buffer w));
                            Writer.endian := Writer.endian w |})).
  { unfold Writer.write, bind, Writer.on_buffer, ret.
    destruct (Stream.write bs (Writer.buffer w)) as [[x|x|] s'] eqn:Ew;
      try reflexivity; destruct bs; discriminate Ew. }
  rewrite Hw, Writer_write_zero.
  cbn [Writer.buffer Writer.endian]. rewrite Stream_write_app. reflexivity.
Qed.

(** X12.  The stream-backed pair on terminated strings: [Writer.write_strz]
    on an empty stream leaves the UTF-8 bytes and a zero byte in it, and
    [Reader.read_strz] on a stream holding that data reads the string back and
    stops after the zero byte, provided the bytes hold no zero byte. *)
Theorem stream_terminated_string_round_trip (s : Utf8.str) (bs : list byte)
        (e e' : endian) :
  Utf8.encode s = Ok bs ->
  ~ In x00 bs ->
  Writer.write_strz s (Writer.init {| Stream.data := []; Stream.pos := 0 |} e)
  = (Ok tt,
     {| Writer.buffer := {| Stream.data := bs ++ [x00];
                            Stream.pos := length (bs ++ [x00]) |};
        Writer.endian := e |})
  /\ Reader.read_strz 0
       (Reader.init {| Stream.data := bs ++ [x00]; Stream.pos := 0 |} e')
     = (Ok s,
        {| Reader.buffer := {| Stream.data := bs ++ [x00];
                               Stream.pos := (length bs + 1)%nat |};
           Reader.endian := e' |}).
Proof.
  intros Henc Hnul. split.
  - rewrite (Writer_write_strz_eq s bs _ Henc).
    cbn [Writer.init Writer.buffer Writer.endian].
    rewrite Stream_write_nonempty by (destruct bs; discriminate).
    cbn [Stream.data Stream.pos firstn repeat Nat.sub app Nat.add].
    rewrite skipn_nil, app_nil_r. reflexivity.
  - apply (Reader_read_strz_found 0
             (Reader.init {| Stream.data := bs ++ [x00]; Stream.pos := 0 |} e')
             bs x00 []).
    + reflexivity.
    + apply (i8_not_terminator 0); [lia | exact Hnul].
    + reflexivity.
    + apply decode_encode. exact Henc.
Qed.

Lemma stream_terminated_string_round_trip_witness :
  Writer.write_strz [104; 105]
    (Writer.init {| Stream.data := []; Stream.pos := 0 |} Little)
  = (Ok tt,
     {| Writer.buffer := {| Stream.data := [x68; x69] ++ [x00];
                            Stream.pos := length ([x68; x69] ++ [x00]) |};
        Writer.endian := Little |})
  /\ Reader.read_strz 0
       (Reader.init {| Stream.data := [x68; x69] ++ [x00]; Stream.pos := 0 |} Big)
     = (Ok [104; 105],
        {| Reader.buffer := {| Stream.data := [x68; x69] ++ [x00];
                               Stream.pos := (length [x68; x69] + 1)%nat |};
           Reader.endian := Big |}).
Proof.
  apply (stream_terminated_string_round_trip [104; 105] [x68; x69] Little Big).
  - reflexivity.
  - simpl. intros [H|[H|[]]]; discriminate H.
Defined.

(** ** The key of [read_str_xor] *)

Lemma lxor_out_of_byte (n key : Z) :
  0 <= n < 256 -> ~ (0 <= key <= 255) -> ~ (0 <= Z.lxor n key < 256).
Proof.
  intros Hn Hk [Hlo Hhi].
  destruct (Z_lt_le_dec key 0) as [Hneg|Hpos].
  - apply Z.lxor_nonneg in Hlo. lia.
  - assert (Hs : Z.shiftr (Z.lxor n key) 8 = key / 256).
    { rewrite Z.shiftr_lxor, !Z.shiftr_div_pow2 by lia.
      change (2 ^ 8) with 256. rewrite (Z.div_small n) by lia.
      apply Z.lxor_0_l. }
    rewrite Z.shiftr_div_pow2 in Hs by lia. change (2 ^ 8) with 256 in Hs.
    rewrite (Z.div_small (Z.lxor n key)) in Hs by lia.
    assert (1 <= key / 256) by (apply Z.div_le_lower_bound; lia).
    lia.
Qed.

Lemma Reader_read_str_xor_eq (size key : Z) (r : Reader.t) :
  Reader.read_str_xor size key r
  = (result_bind
       (Reader.xor_bytes key
          (match fst (Stream.read size (Reader.buffer r)) with
           | Ok buf => buf
           | _ => []
           end))
       Utf8.decode,
     {| Reader.buffer := snd (Stream.read size (Reader.buffer r));
        Reader.endian := Reader.endian r |}).
Proof.
  unfold Reader.read_str_xor, bind, lift, Reader.read, Reader.on_buffer.
  cbn [Stream.read fst snd].
  destruct (Reader.xor_bytes key _) as [plain| |]; reflexivity.
Qed.

(** X13.  A key outside [0, 255] makes [read_str_xor] raise [ValueError] as
    soon as it has read one byte, since [bytes] refuses what the exclusive-or
    gives; when it reads no byte (a size of 0, or a stream at its end) it
    returns the empty string for every key. *)
Theorem read_str_xor_key_out_of_range (size key : Z) (r : Reader.t) :
  (~ (0 <= key <= 255) ->
   size <> 0 ->
   (Stream.pos (Reader.buffer r) < length (Stream.data (Reader.buffer r)))%nat ->
   fst (Reader.read_str_xor size key r) = Raise ValueError)
  /\ (size = 0
      \/ (length (Stream.data (Reader.buffer r)) <= Stream.pos (Reader.buffer r))%nat ->
      fst (Reader.read_str_xor size key r) = Ok []).
Proof.
  rewrite Reader_read_str_xor_eq. cbn [fst Stream.read].
  set (avail := skipn (Stream.pos (Reader.buffer r)) (Stream.data (Reader.buffer r))).
  assert (Hav : length avail
                = (length (Stream.data (Reader.buffer r))
                   - Stream.pos (Reader.buffer r))%nat)
    by (unfold avail; apply length_skipn).
  split.
  - intros Hk Hsize Hpos.
    destruct avail as [|b rest] eqn:Ea; [cbn [length] in Hav; lia|].
    assert (Hn : exists m, (if size <? 0 then length (b :: rest)
                            else Nat.min (Z.to_nat size) (length (b :: rest)))
                           = S m).
    { destruct (Z.ltb_spec size 0); cbn [length].
      - eexists. reflexivity.
      - exists (Nat.pred (Nat.min (Z.to_nat size) (S (length rest)))). lia. }
    destruct Hn as [m ->]. cbn [firstn].
    unfold Reader.xor_bytes. cbn [map bytes_of_ints].
    pose proof (lxor_out_of_byte (Z_of_byte b) key (Z_of_byte_range b) Hk) as Hx.
    destruct (Z.leb_spec 0 (Z.lxor (Z_of_byte b) key)),
      (Z.ltb_spec (Z.lxor (Z_of_byte b) key) 256); cbn [andb result_bind];
      try reflexivity.
    exfalso. apply Hx. lia.
  - intros [-> | Hend].
    + cbn. reflexivity.
    + destruct avail as [|b rest]; [|cbn [length] in Hav; lia].
      destruct (size <? 0); cbn [length firstn Nat.min]; [reflexivity|].
      rewrite Nat.min_0_r. reflexivity.
Qed.

Lemma read_str_xor_key_out_of_range_witness :
  fst (Reader.read_str_xor 2 256
         {| Reader.buffer := {| Stream.data := [x61; x62]; Stream.pos := 0 |};
            Reader.endian := Little |})
  = Raise ValueError
  /\ fst (Reader.read_str_xor 2 (-1)
            {| Reader.buffer := {| Stream.data := [x61; x62]; Stream.pos := 2 |};
               Reader.endian := Little |})
     = Ok [].
Proof.
  split.
  - apply (proj1 (read_str_xor_key_out_of_range 2 256
                    {| Reader.buffer := {| Stream.data := [x61; x62];
                                           Stream.pos := 0 |};
                       Reader.endian := Little |})).
    + lia.
    + lia.
    + simpl. lia.
  - apply (proj2 (read_str_xor_key_out_of_range 2 (-1)
                    {| Reader.buffer := {| Stream.data := [x61; x62];
                                           Stream.pos := 2 |};
                       Reader.endian := Little |})).
    right. simpl. lia.
Defined.

Lemma xor_bytes_zero (buf : list byte) : Reader.xor_bytes 0 buf = Ok buf.
Proof.
  rewrite xor_bytes_eq by lia. f_equal. unfold xor_span.
  rewrite <- (map_id buf) at 2. apply map_ext. intros x.
  rewrite Z.lxor_0_r. apply byte_of_Z_of_byte.
Qed.

(** X14.  With the key 0, [read_str_xor] is [read_str]: the same result and
    the same stream afterwards, for every size and stream. *)
Theorem read_str_xor_zero_key (size : Z) (r : Reader.t) :
  Reader.read_str_xor size 0 r = Reader.read_str size r.
Proof.
  rewrite Reader_read_str_xor_eq.
  unfold Reader.read_str, bind, lift, Reader.read, Reader.on_buffer.
  cbn [Stream.read fst snd].
  rewrite xor_bytes_zero. cbn [result_bind].
  destruct (Utf8.decode _); reflexivity.
Qed.

(** ** What the operations leave alone *)

Lemma MemoryReader_scan_frame (t : Z) :
  forall fuel r n res r',
    MemoryReader.strz_scan fuel t n r = (res, r') ->
    MemoryReader.buffer r' = MemoryReader.buffer r
    /\ MemoryReader.endian r' = MemoryReader.endian r.
Proof.
  induction fuel as [|fuel IH]; intros r n res r'.
  - intros [= _ <-]. split; reflexivity.
  - cbn [MemoryReader.strz_scan]. unfold bind at 1.
    rewrite MemoryReader_read_i8_eq.
    destruct (py_slice _ _ _) as [|b [|b' l]];
      try (intros [= _ <-]; split; reflexivity).
    destruct (i8 b =? t); [intros [= _ <-]; split; reflexivity|].
    intros H. apply IH in H. exact H.
Qed.

Lemma MemoryReader_read_strz_frame (t : Z) (r r' : MemoryReader.t)
      (res : result Utf8.str) :
  MemoryReader.read_strz t r = (res, r') ->
  MemoryReader.buffer r' = MemoryReader.buffer r
  /\ MemoryReader.endian r' = MemoryReader.endian r.
Proof.
  unfold MemoryReader.read_strz, MemoryReader.read_strz_fuel.
  unfold bind at 1. cbn [MemoryReader.tell]. unfold bind at 1.
  destruct (MemoryReader.strz_scan _ t 0 r) as [res1 r1] eqn:Es.
  pose proof (MemoryReader_scan_frame t _ r 0 res1 r1 Es) as Hs.
  destruct res1 as [m|e|]; try (intros [= _ <-]; exact Hs).
  unfold bind at 1. cbn [MemoryReader.seek].
  unfold MemoryReader.read_str. unfold bind at 1. unfold bind at 1.
  cbn [MemoryReader.read]. unfold lift.
  destruct (Utf8.decode _) as [line|e|];
    unfold MemoryReader.skip, bind, ret;
    cbn [MemoryReader.tell MemoryReader.seek MemoryReader.buffer
           MemoryReader.endian MemoryReader.offset];
    intros [= _ <-]; exact Hs.
Qed.

(** X15.  No operation of a [MemoryReader] changes its buffer or its byte
    order, whether it returns or raises: only the cursor moves. *)
Theorem reader_only_moves_cursor (o : reader_op) (r : MemoryReader.t) :
  MemoryReader.buffer (after o r) = MemoryReader.buffer r
  /\ MemoryReader.endian (after o r) = MemoryReader.endian r.
Proof.
  destruct o as [count|c|n|t|off|count|]; cbn [after].
  - split; reflexivity.
  - rewrite MemoryReader_read_num_eq. split; reflexivity.
  - unfold MemoryReader.read_str, bind, lift. cbn [MemoryReader.read].
    destruct (Utf8.decode _); split; reflexivity.
  - destruct (MemoryReader.read_strz t r) as [res r'] eqn:E.
    exact (MemoryReader_read_strz_frame t r r' res E).
  - split; reflexivity.
  - split; reflexivity.
  - split; reflexivity.
Qed.

Lemma encode_raises_only (s : Utf8.str) :
  match Utf8.encode s with
  | Ok _ => True
  | Raise e => e = UnicodeEncodeError
  | OutOfFuel => False
  end.
Proof.
  induction s as [|c s IH]; cbn [Utf8.encode]; [exact I|].
  assert (Hc : match Utf8.encode_char c with
               | Ok _ => True
               | Raise e => e = UnicodeEncodeError
               | OutOfFuel => False
               end).
  { unfold Utf8.encode_char.
    repeat match goal with
           | |- context [if ?b then _ else _] => destruct b
           end; cbn; auto. }
  destruct (Utf8.encode_char c); cbn [result_bind]; try exact Hc.
  unfold result_map. destruct (Utf8.encode s); cbn [result_bind]; exact IH.
Qed.

(** X16.  A [MemoryWriter] only ever appends, all or nothing: an operation
    that returns has extended the buffer at its end (by the given bytes, the
    [size] bytes of a number, or the UTF-8 bytes of a string, with a zero
    byte after them for [write_strz]); one that raises, [struct.error] for a
    number out of range or [UnicodeEncodeError] for a string that cannot be
    encoded, has left the writer exactly as it was.  The byte order never
    changes. *)
Theorem writer_appends_or_nothing (o : writer_op) (w : MemoryWriter.t) :
  match run_write o w with
  | (Ok _, w') =>
      MemoryWriter.endian w' = MemoryWriter.endian w
      /\ exists added,
          MemoryWriter.buffer w' = MemoryWriter.buffer w ++ added
          /\ match o with
             | OpWrite data => added = data
             | OpWriteNum c _ => length added = size c
             | OpWriteStr data => Utf8.encode data = Ok added
             | OpWriteStrz data =>
                 exists bs, Utf8.encode data = Ok bs /\ added = bs ++ [x00]
             end
  | (Raise e, w') =>
      w' = w
      /\ match o with
         | OpWrite _ => False
         | OpWriteNum c v =>
             e = StructError /\ ~ (min_value c <= v <= max_value c)
         | OpWriteStr _ | OpWriteStrz _ => e = UnicodeEncodeError
         end
  | (OutOfFuel, _) => False
  end.
Proof.
  destruct o as [data|c v|data|data]; cbn [run_write].
  - cbn. split; [reflexivity|]. exists data. split; reflexivity.
  - rewrite MemoryWriter_write_num_eq. unfold pack.
    destruct (in_range c v) eqn:Hr.
    + split; [reflexivity|]. eexists. split; [reflexivity|].
      now rewrite length_order, length_int_to_bytes_le.
    + split; [reflexivity|]. split; [reflexivity|].
      intros H. apply in_range_iff in H. congruence.
  - unfold MemoryWriter.write_str, bind, lift.
    pose proof (encode_raises_only data) as He.
    destruct (Utf8.encode data) as [bs|e|]; cbn [MemoryWriter.write].
    + split; [reflexivity|]. exists bs. split; reflexivity.
    + split; [reflexivity | exact He].
    + exact He.
  - pose proof (encode_raises_only data) as He.
    destruct (Utf8.encode data) as [bs|e|] eqn:E.
    + rewrite (MemoryWriter_write_strz_eq data bs w E).
      split; [reflexivity|]. exists (bs ++ [x00]).
      split; [symmetry; apply app_assoc|]. exists bs. split; reflexivity.
    + unfold MemoryWriter.write_strz, bind, lift. rewrite E.
      split; [reflexivity | exact He].
    + destruct He.
Qed.

(** ** [Writer] on a stream *)

(** X17.  [skip] of a [Writer] with a count of zero or less writes nothing
    and leaves the stream where it was: unlike the [skip] of the readers,
    it cannot move the position back. *)
Theorem writer_skip_not_positive (count : Z) (w : Writer.t) :
  count <= 0 ->
  Writer.skip count w = (Ok tt, w)
  /\ forall r : MemoryReader.t,
      MemoryReader.offset (snd (MemoryReader.skip count r))
      = MemoryReader.offset r + count.
Proof.
  intros Hc. split; [|reflexivity].
  unfold Writer.skip. replace (Z.to_nat count) with 0%nat by lia. reflexivity.
Qed.

Lemma writer_skip_not_positive_witness :
  Writer.skip (-3)
    (Writer.init {| Stream.data := [x01; x02]; Stream.pos := 2 |} Little)
  = (Ok tt, Writer.init {| Stream.data := [x01; x02]; Stream.pos := 2 |} Little)
  /\ forall r : MemoryReader.t,
      MemoryReader.offset (snd (MemoryReader.skip (-3) r))
      = MemoryReader.offset r + -3.
Proof.
  apply (writer_skip_not_positive (-3)
           (Writer.init {| Stream.data := [x01; x02]; Stream.pos := 2 |} Little)).
  lia.
Defined.

(** X18.  A fixed-width write of a [Writer] whose stream stands inside its
    data, with room for the value, replaces [size] bytes in place: the data
    keeps its length and everything outside those bytes, the position moves
    past them, and a [Reader] of the same byte order placed where they start
    reads the value. *)
Theorem writer_overwrites_in_place (c : code) (v : Z) (w : Writer.t) :
  min_value c <= v <= max_value c ->
  (Stream.pos (Writer.buffer w) + size c
   <= length (Stream.data (Writer.buffer w)))%nat ->
  exists s',
    Writer.write_num c v w
    = (Ok tt, {| Writer.buffer := s'; Writer.endian := Writer.endian w |})
    /\ Stream.pos s' = (Stream.pos (Writer.buffer w) + size c)%nat
    /\ length (Stream.data s') = length (Stream.data (Writer.buffer w))
    /\ firstn (Stream.pos (Writer.buffer w)) (Stream.data s')
       = firstn (Stream.pos (Writer.buffer w)) (Stream.data (Writer.buffer w))
    /\ skipn (Stream.pos (Writer.buffer w) + size c) (Stream.data s')
       = skipn (Stream.pos (Writer.buffer w) + size c)
           (Stream.data (Writer.buffer w))
    /\ fst (Reader.read_num c
              {| Reader.buffer :=
                   {| Stream.data := Stream.data s';
                      Stream.pos := Stream.pos (Writer.buffer w) |};
                 Reader.endian := Writer.endian w |})
       = Ok v.
Proof.
  intros Hv Hroom. apply in_range_iff in Hv.
  pose proof (unpack_pack (Writer.endian w) c v Hv) as Hrt.
  rewrite Writer_write_num_eq.
  destruct (pack (Writer.endian w) c v) as [bs| |] eqn:Hp; try discriminate.
  cbn [result_bind] in Hrt.
  pose proof (pack_length _ _ _ _ Hp) as Hlen.
  eexists. split; [reflexivity|].
  pose proof (Stream_write_spec bs (Writer.buffer w)) as Hs. cbv zeta in Hs.
  rewrite Hlen in Hs. destruct Hs as (H1 & H2 & H3 & H4).
  rewrite Nat.min_l in H4 by lia.
  assert (Hl : length (Stream.data (snd (Stream.write bs (Writer.buffer w))))
               = length (Stream.data (Writer.buffer w))).
  { assert (Hne : bs <> []) by (intros ->; destruct c; discriminate Hlen).
    rewrite (Stream_write_nonempty bs _ Hne). cbn [Stream.data].
    rewrite !length_app, length_firstn, repeat_length, length_skipn. lia. }
  repeat split; try assumption.
  rewrite Reader_read_num_eq. cbv zeta.
  cbn [fst Reader.buffer Reader.endian Stream.data Stream.pos].
  rewrite length_skipn, Hl.
  replace (Nat.min (size c)
             (length (Stream.data (Writer.buffer w)) - Stream.pos (Writer.buffer w)))
    with (size c) by lia.
  rewrite H2. exact Hrt.
Qed.

Lemma writer_overwrites_in_place_witness :
  exists s',
    Writer.write_num fmt_H 258
      (Writer.init {| Stream.data := [x0a; x0b; x0c; x0d]; Stream.pos := 1 |} Big)
    = (Ok tt, {| Writer.buffer := s'; Writer.endian := Big |})
    /\ Stream.pos s' = (1 + size fmt_H)%nat
    /\ length (Stream.data s') = length [x0a; x0b; x0c; x0d]
    /\ firstn 1 (Stream.data s') = firstn 1 [x0a; x0b; x0c; x0d]
    /\ skipn (1 + size fmt_H) (Stream.data s')
       = skipn (1 + size fmt_H) [x0a; x0b; x0c; x0d]
    /\ fst (Reader.read_num fmt_H
              {| Reader.buffer := {| Stream.data := Stream.data s';
                                     Stream.pos := 1 |};
                 Reader.endian := Big |})
       = Ok 258.
Proof.
  apply (writer_overwrites_in_place fmt_H 258
           (Writer.init {| Stream.data := [x0a; x0b; x0c; x0d];
                           Stream.pos := 1 |} Big)).
  - vm_compute. split; discriminate.
  - simpl. lia.
Defined.

(** ** Reads one after the other *)

Lemma py_slice_from {A} (l : list A) (o c : Z) :
  0 <= o -> 0 <= c ->
  py_slice l o (o + c) = firstn (Z.to_nat c) (skipn (Z.to_nat o) l).
Proof.
  intros Ho Hc.
  destruct (Z_le_gt_dec (o + c) (Z.of_nat (length l))) as [Hin|Hout].
  - apply py_slice_inside; assumption.
  - rewrite py_slice_cut by lia. symmetry. apply firstn_all2.
    rewrite length_skipn. lia.
Qed.

Lemma firstn_plus {A} (a b : nat) (l : list A) :
  firstn (a + b) l = firstn a l ++ firstn b (skipn a l).
Proof.
  revert l. induction a as [|a IH]; intros l; [reflexivity|].
  destruct l as [|x l]; cbn [Nat.add firstn skipn app].
  - now rewrite firstn_nil.
  - now rewrite IH.
Qed.

(** X19.  From a cursor that is not negative, [read(a)] followed by
    [read(b)] returns, piece by piece, the bytes that one [read(a + b)]
    returns, and leaves the same reader. *)
Theorem reads_compose (a b : Z) (r : MemoryReader.t) :
  0 <= MemoryReader.offset r -> 0 <= a -> 0 <= b ->
  (x <- MemoryReader.read a ;; y <- MemoryReader.read b ;; ret (x ++ y))%method r
  = MemoryReader.read (a + b) r.
Proof.
  intros Ho Ha Hb. unfold bind, ret, MemoryReader.read.
  cbn [MemoryReader.buffer MemoryReader.endian MemoryReader.offset].
  rewrite !py_slice_from by lia.
  f_equal.
  - f_equal.
    replace (Z.to_nat (a + b)) with (Z.to_nat a + Z.to_nat b)%nat by lia.
    rewrite firstn_plus, skipn_skipn.
    do 3 f_equal. lia.
  - f_equal. lia.
Qed.

Lemma reads_compose_witness :
  let r := {| MemoryReader.buffer := [x01; x02; x03; x04];
              MemoryReader.endian := Little; MemoryReader.offset := 1 |} in
  (x <- MemoryReader.read 2 ;; y <- MemoryReader.read 5 ;; ret (x ++ y))%method r
  = MemoryReader.read (2 + 5) r.
Proof.
  cbv zeta.
  apply (reads_compose 2 5
           {| MemoryReader.buffer := [x01; x02; x03; x04];
              MemoryReader.endian := Little; MemoryReader.offset := 1 |});
    simpl; lia.
Defined.

(** X20.  A number and then a terminated string written by a
    [MemoryWriter] are read back, in that order, by a [MemoryReader] of the
    same byte order, which ends at the end of the buffer. *)
Theorem record_round_trip (c : code) (v : Z) (s : Utf8.str) (bs : list byte)
        (e : endian) :
  min_value c <= v <= max_value c ->
  Utf8.encode s = Ok bs ->
  ~ In x00 bs ->
  exists w,
    (MemoryWriter.write_num c v ;; MemoryWriter.write_strz s)%method
      (MemoryWriter.init e) = (Ok tt, w)
    /\ (x <- MemoryReader.read_num c ;;
        y <- MemoryReader.read_strz 0 ;;
        ret (x, y))%method (MemoryReader.init (MemoryWriter.buffer w) e)
       = (Ok (v, s),
          {| MemoryReader.buffer := MemoryWriter.buffer w;
             MemoryReader.endian := e;
             MemoryReader.offset := Z.of_nat (length (MemoryWriter.buffer w)) |}).
Proof.
  intros Hv Henc Hnul. apply in_range_iff in Hv.
  pose proof (unpack_pack e c v Hv) as Hrt.
  unfold bind at 1. rewrite MemoryWriter_write_num_eq.
  cbn [MemoryWriter.init MemoryWriter.endian MemoryWriter.buffer app].
  destruct (pack e c v) as [nb| |] eqn:Hp; try discriminate.
  cbn [result_bind] in Hrt.
  pose proof (pack_length _ _ _ _ Hp) as Hlen.
  rewrite (MemoryWriter_write_strz_eq s bs _ Henc).
  cbn [MemoryWriter.endian MemoryWriter.buffer].
  eexists. split; [reflexivity|]. cbn [MemoryWriter.buffer].
  rewrite <- app_assoc.
  unfold bind at 1. rewrite MemoryReader_read_num_eq.
  cbn [MemoryReader.init MemoryReader.buffer MemoryReader.endian
         MemoryReader.offset].
  pose proof (slice_of_middle [] nb (bs ++ [x00])) as Hs.
  cbn [app length Z.of_nat] in Hs. rewrite Hlen in Hs.
  rewrite Hs, Hrt. unfold bind at 1.
  rewrite (MemoryReader_read_strz_span 0 _ bs x00 []);
    cbn [MemoryReader.buffer MemoryReader.endian MemoryReader.offset].
  - rewrite (decode_encode s bs Henc). unfold ret.
    do 2 f_equal. rewrite !length_app, Hlen. cbn [length]. lia.
  - lia.
  - replace (Z.to_nat (0 + Z.of_nat (size c))) with (length nb) by lia.
    apply skipn_app_exact. reflexivity.
  - apply (i8_not_terminator 0); [lia | exact Hnul].
  - reflexivity.
Qed.

Lemma record_round_trip_witness :
  exists w,
    (MemoryWriter.write_num fmt_H 513 ;; MemoryWriter.write_strz [104; 105])%method
      (MemoryWriter.init Big) = (Ok tt, w)
    /\ (x <- MemoryReader.read_num fmt_H ;;
        y <- MemoryReader.read_strz 0 ;;
        ret (x, y))%method (MemoryReader.init (MemoryWriter.buffer w) Big)
       = (Ok (513, [104; 105]),
          {| MemoryReader.buffer := MemoryWriter.buffer w;
             MemoryReader.endian := Big;
             MemoryReader.offset := Z.of_nat (length (MemoryWriter.buffer w)) |}).
Proof.
  apply (record_round_trip fmt_H 513 [104; 105] [x68; x69] Big).
  - vm_compute. split; discriminate.
  - reflexivity.
  - simpl. intros [H|[H|[]]]; discriminate H.
Defined.

(** ** What a [Reader] leaves alone *)

Lemma keeps_ret {A} (a : A) : keeps_stream_data (ret a).
Proof. intros r. split; reflexivity. Qed.

Lemma keeps_lift {A} (x : result A) : keeps_stream_data (lift x).
Proof. intros r. split; reflexivity. Qed.

Lemma keeps_bind {A B} (m : M Reader.t A) (k : A -> M Reader.t B) :
  keeps_stream_data m -> (forall a, keeps_stream_data (k a)) ->
  keeps_stream_data (bind m k).
Proof.
  intros Hm Hk r. unfold bind. specialize (Hm r).
  destruct (m r) as [[a|e|] r1]; cbn [snd] in *; try exact Hm.
  destruct (Hk a r1) as [H1 H2]. destruct Hm as [H3 H4].
  split; congruence.
Qed.

Lemma keeps_read (count : Z) : keeps_stream_data (Reader.read count).
Proof. intros r. split; reflexivity. Qed.

Lemma keeps_tell : keeps_stream_data Reader.tell.
Proof. intros r. split; reflexivity. Qed.

Lemma keeps_get_endian : keeps_stream_data Reader.get_endian.
Proof. intros r. split; reflexivity. Qed.

Lemma keeps_seek (offset : Z) : keeps_stream_data (Reader.seek offset).
Proof.
  intros r. unfold Reader.seek, bind, Reader.on_buffer, Stream.seek, ret.
  destruct (offset <? 0); split; reflexivity.
Qed.

Lemma keeps_read_num (c : code) : keeps_stream_data (Reader.read_num c).
Proof. intros r. rewrite Reader_read_num_eq. split; reflexivity. Qed.

Lemma keeps_scan (t : Z) (fuel : nat) :
  forall n, keeps_stream_data (Reader.strz_scan fuel t n).
Proof.
  induction fuel as [|fuel IH]; intros n; cbn [Reader.strz_scan].
  - apply keeps_lift.
  - apply keeps_bind; [exact (keeps_read_num fmt_b)|].
    intros c. destruct (c =? t); [apply keeps_ret | apply IH].
Qed.

(** X21.  No operation of a [Reader] changes the data of its stream or its
    byte order, whether it returns or raises: only the position of the stream
    moves. *)
Theorem stream_reader_only_moves_position (o : stream_reader_op) (r : Reader.t) :
  Stream.data (Reader.buffer (stream_after o r)) = Stream.data (Reader.buffer r)
  /\ Reader.endian (stream_after o r) = Reader.endian r.
Proof.
  assert (Hskip : forall count, keeps_stream_data (Reader.skip count)).
  { intros count. apply keeps_bind; [apply keeps_tell|].
    intros pos. apply keeps_seek. }
  assert (Hstr : forall size, keeps_stream_data (Reader.read_str size)).
  { intros size. apply keeps_bind; [apply keeps_read|].
    intros buf. apply keeps_lift. }
  destruct o as [count|c|size|size key|t|off|count|]; cbn [stream_after].
  - apply keeps_read.
  - apply keeps_read_num.
  - apply Hstr.
  - revert r. apply keeps_bind; [apply keeps_read|].
    intros buf. apply keeps_bind; [apply keeps_lift|].
    intros plain. apply keeps_lift.
  - unfold Reader.read_strz.
    generalize (S (length (Stream.data (Reader.buffer r)))). intros fuel.
    revert r. apply keeps_bind; [apply keeps_tell|].
    intros pos. apply keeps_bind; [apply keeps_scan|].
    intros len. apply keeps_bind; [apply keeps_seek|].
    intros _. apply keeps_bind; [apply Hstr|].
    intros line. apply keeps_bind; [apply Hskip|].
    intros _. apply keeps_ret.
  - apply keeps_seek.
  - apply Hskip.
  - apply keeps_tell.
Qed.

Lemma stream_roundtrip_witness :
  exists w,
    Writer.write_num fmt_q (-3)
      (Writer.init {| Stream.data := []; Stream.pos := 0 |} Big) = (Ok tt, w)
    /\ fst (Reader.read_num fmt_q
              (Reader.init {| Stream.data := Stream.data (Writer.buffer w);
                              Stream.pos := 0 |} Big))
       = Ok (-3).
Proof.
  apply (stream_roundtrip fmt_q Big (-3)). vm_compute. split; discriminate.
Defined.
